(** * CzechiBank analytics dashboard: the transforms of [src/app/page.tsx]

    A shallow embedding of the dashboard component: the data loader's
    bookkeeping ([fetchData]), the table sorter ([handleSort],
    [sortedTransactions]) and the chart transforms ([balanceData],
    [transactionTypes], [transactionStats], [topPartnersData],
    [runningBalanceData]), together with the properties the specification
    states about them.

    Modelling conventions.
    - A JavaScript [number] holding an amount, a balance or an epoch
      timestamp is an integer of [Z], and sums are the exact sums. A
      [number] is an IEEE 754 double: it holds every integer up to 2^53
      ([maxExact]) and adds such integers without rounding as long as the
      result stays in that range, so the embedding is the code on integer
      amounts whose absolute values add up to at most 2^53
      ([exactVolume]). Outside this range (fractions of a currency unit,
      larger sums) two sums of the same amounts taken in different orders
      can differ; the properties that compare such sums carry the range as
      a hypothesis, and [Doubles] holds the two reduces concerned on doubles
      themselves.
    - [new Date(s).getTime()], the cs-CZ day/month label of a date and
      [String.prototype.localeCompare] belong to the runtime; they are
      parameters of the development ([getTime], [csDate], [localeCompare]).
      A concrete UTC instance ([isoTime], [isoDate], [codeUnitCompare]) is
      given for evaluation on explicit inputs.
    - [Array.prototype.sort] is stable and sorts the receiver in place; it is
      modelled by a stable insertion sort, and the in-place effect by
      threading the array through the render ([render]).
    - An object used as a dictionary is the list of its own properties in
      creation order; lookups also see the members inherited from
      [Object.prototype], and enumeration lists array-index keys first. *)

From Stdlib Require Import Floats.PrimFloat.
From Stdlib Require Import ZArith List String Ascii Bool Lia Permutation Sorted.
Import ListNotations.
Open Scope Z_scope.

(** ** Data model

    The interfaces of the source; the [id] and [name] fields that several of
    them share carry a prefix here ([uid] is the [id] of an endpoint's
    user). *)

Record Party := mkParty { name : string; uid : string }.

Record Endpoint := mkEndpoint { number : string; user : Party }.

(** [amount] is the [number] of the source on its integer values; a
    transaction whose amount is any double is a [Doubles.Transaction]. *)
Record Transaction := mkTransaction {
  tx_id : string;
  amount : Z;
  createdAt : string;
  currency : string;
  from : Endpoint;
  to : Endpoint
}.

Record BankAccount := mkBankAccount {
  acct_id : string;
  acct_number : string;
  acct_balance : Z;
  acct_currency : string;
  acct_user : Party
}.

Record User := mkUser { user_id : string; user_name : string; user_email : string }.

Inductive SortField := date_field | amount_field | from_field | to_field.

Inductive SortOrder := asc | desc.

(** ** Arrays *)

Section Arrays.
Context {A : Type}.

(** [insertBy cmp x l] puts [x] in front of the first element that the
    comparator does not order strictly before it. *)
Fixpoint insertBy (cmp : A -> A -> Z) (x : A) (l : list A) : list A :=
  match l with
  | [] => [x]
  | y :: l' => if cmp x y <=? 0 then x :: l else y :: insertBy cmp x l'
  end.

(** [Array.prototype.sort(cmp)]: the stable sort of the array. *)
Definition arraySort (cmp : A -> A -> Z) (l : list A) : list A :=
  fold_right (insertBy cmp) [] l.

(** [Array.prototype.findIndex]; [None] stands for the result -1. *)
Fixpoint findIndex (p : A -> bool) (l : list A) : option nat :=
  match l with
  | [] => None
  | x :: l' => if p x then Some O else option_map S (findIndex p l')
  end.

(** [arr[i].field = v]: the element at index [i] is replaced by [f] of it. *)
Fixpoint updateAt (i : nat) (f : A -> A) (l : list A) : list A :=
  match l, i with
  | [], _ => []
  | x :: l', O => f x :: l'
  | x :: l', S j => x :: updateAt j f l'
  end.

(** [arr[arr.length - 1]], when the array is not empty. *)
Definition lastElement (l : list A) : option A :=
  match rev l with
  | [] => None
  | x :: _ => Some x
  end.

(** [before a b l]: [a] stands in [l] at a position ahead of an
    occurrence of [b]. *)
Inductive before (a b : A) : list A -> Prop :=
| before_here : forall l, In b l -> before a b (a :: l)
| before_later : forall x l, before a b l -> before a b (x :: l).

(** The order a comparator puts on the adjacent elements of a sorted
    array. *)
Definition ordered (cmp : A -> A -> Z) (a b : A) : Prop := cmp a b <= 0.

(** A comparator never says of two elements that each comes after the
    other. *)
Definition antisymmetric (cmp : A -> A -> Z) : Prop :=
  forall a b, (0 < cmp a b -> cmp b a < 0) /\ (cmp a b < 0 -> 0 < cmp b a).

(** The comparator [(a, b) => key(a) - key(b)]. *)
Definition byKey (key : A -> Z) (a b : A) : Z := key a - key b.

(** The elements of the array whose key is [v], in array order. *)
Definition withKey (key : A -> Z) (v : Z) (l : list A) : list A :=
  filter (fun y => key y =? v) l.
End Arrays.

(** ** Objects used as dictionaries *)

(** The property names a plain object inherits from [Object.prototype]. *)
Definition objectPrototypeKeys : list string :=
  [ "constructor"; "hasOwnProperty"; "isPrototypeOf"; "propertyIsEnumerable";
    "toLocaleString"; "toString"; "valueOf"; "__proto__";
    "__defineGetter__"; "__defineSetter__"; "__lookupGetter__";
    "__lookupSetter__" ]%string.

Definition inheritedKey (k : string) : bool :=
  existsb (String.eqb k) objectPrototypeKeys.

Definition isDigit (c : ascii) : bool :=
  ((48 <=? nat_of_ascii c) && (nat_of_ascii c <=? 57))%nat.

Fixpoint digitsValue (s : string) (acc : N) : option N :=
  match s with
  | EmptyString => Some acc
  | String c s' =>
      if isDigit c
      then digitsValue s' (10 * acc + N.of_nat (nat_of_ascii c - 48))%N
      else None
  end.

(** A property name is an array index when it is the canonical decimal
    numeral of an integer below 2^32 - 1. *)
Definition arrayIndex (k : string) : option N :=
  match k with
  | EmptyString => None
  | String "0" EmptyString => Some 0%N
  | String "0" _ => None
  | _ => match digitsValue k 0 with
         | Some n => if (n <? 4294967295)%N then Some n else None
         | None => None
         end
  end.

Definition isArrayIndex (k : string) : bool :=
  match arrayIndex k with Some _ => true | None => false end.

Definition indexOf (k : string) : Z :=
  match arrayIndex k with Some n => Z.of_N n | None => 0 end.

Section Objects.
Context {V : Type}.

(** Own properties, in the order of their creation. *)
Definition JsObject := list (string * V).

Definition getOwn (k : string) (o : JsObject) : option V :=
  option_map snd (find (fun kv => String.eqb (fst kv) k) o).

(** [o[k] = v] for a key that is not an own property yet. *)
Definition defineOwn (k : string) (v : V) (o : JsObject) : JsObject :=
  o ++ [(k, v)].

(** In-place update of the value stored under the own property [k]. *)
Definition modifyOwn (k : string) (f : V -> V) (o : JsObject) : JsObject :=
  map (fun kv => if String.eqb (fst kv) k then (fst kv, f (snd kv)) else kv) o.

(** Own property keys in enumeration order: array indices in ascending
    numeric order, then the other names in creation order. *)
Definition ownEntries (o : JsObject) : JsObject :=
  arraySort (fun a b => indexOf (fst a) - indexOf (fst b))
            (filter (fun kv => isArrayIndex (fst kv)) o)
  ++ filter (fun kv => negb (isArrayIndex (fst kv))) o.

(** [Object.values(o)] *)
Definition objectValues (o : JsObject) : list V := map snd (ownEntries o).
End Objects.

Arguments JsObject : clear implicits.

(** ** A concrete runtime: ISO-8601 UTC timestamps

    [isoTime] reads a timestamp of the form [YYYY-MM-DDTHH:MM:SS.mmmZ] as
    milliseconds since the epoch, and [isoDate] is the cs-CZ numeric
    day/month label of that instant in a UTC runtime. *)

Definition digitsAt (pos len : nat) (s : string) : Z :=
  match digitsValue (substring pos len s) 0 with
  | Some n => Z.of_N n
  | None => 0
  end.

Definition daysFromCivil (y m d : Z) : Z :=
  let y' := if m <=? 2 then y - 1 else y in
  let era := y' / 400 in
  let yoe := y' - era * 400 in
  let doy := (153 * (if m <=? 2 then m + 9 else m - 3) + 2) / 5 + d - 1 in
  let doe := yoe * 365 + yoe / 4 - yoe / 100 + doy in
  era * 146097 + doe - 719468.

Definition isoTime (s : string) : Z :=
  let days := daysFromCivil (digitsAt 0 4 s) (digitsAt 5 2 s) (digitsAt 8 2 s) in
  (((days * 24 + digitsAt 11 2 s) * 60 + digitsAt 14 2 s) * 60
   + digitsAt 17 2 s) * 1000 + digitsAt 20 3 s.

Definition stripZero (s : string) : string :=
  match s with
  | String "0" s' => s'
  | _ => s
  end.

Definition isoDate (s : string) : string :=
  (stripZero (substring 8 2 s) ++ ". " ++ stripZero (substring 5 2 s) ++ ".")%string.

(** Comparison of strings by code units, as a [localeCompare] result. *)
Definition codeUnitCompare (a b : string) : Z :=
  match String.compare a b with
  | Lt => -1
  | Eq => 0
  | Gt => 1
  end.

(** The value stored for a date by the daily count: a number, or the text
    that [+ 1] produces from something that is not a number. *)
Inductive DayValue := Count (n : Z) | Text.

Record DayCount := mkDayCount { d_date : string; d_count : DayValue }.

(** [s.split(sep)] for a separator of one character. *)
Fixpoint splitOn (sep : ascii) (s : string) : list string :=
  match s with
  | EmptyString => [EmptyString]
  | String c s' =>
      if Ascii.eqb c sep then EmptyString :: splitOn sep s'
      else match splitOn sep s' with
           | h :: t => String c h :: t
           | [] => [String c EmptyString]
           end
  end.

(** [Number(s)] where [s] is a non-empty string of decimal digits whose
    value is below 2^53, where the conversion is exact; [None] on every other
    string, whose conversion is not modelled. *)
Definition digitsNumber (s : string) : option Z :=
  match s with
  | EmptyString => None
  | String _ _ =>
      match digitsValue s 0 with
      | Some n => if (n <? 9007199254740992)%N then Some (Z.of_N n) else None
      | None => None
      end
  end.

(** [const [month, day] = date.split('/').map(Number)] on a label whose first
    two parts are strings of digits; [None] on every other label. *)
Definition monthDay (date : string) : option (Z * Z) :=
  match splitOn "/" date with
  | m :: d :: _ =>
      match digitsNumber m, digitsNumber d with
      | Some month, Some day => Some (month, day)
      | _, _ => None
      end
  | _ => None
  end.

(** A concrete default locale: the en-US month/day label and the English
    month name of an ISO-8601 UTC timestamp, in a UTC runtime. *)
Definition isoMonthDay (s : string) : string :=
  (stripZero (substring 5 2 s) ++ "/" ++ stripZero (substring 8 2 s))%string.

Definition isoMonthName (s : string) : string :=
  nth (Z.to_nat (digitsAt 5 2 s) - 1)
      [ "January"; "February"; "March"; "April"; "May"; "June"; "July";
        "August"; "September"; "October"; "November"; "December" ]%string
      "Invalid Date"%string.

(** ** Derived structures and component state *)

Record BalancePoint := mkBalancePoint {
  bp_date : string;
  bp_balance : Z;
  bp_transactionAmount : Z
}.

Record RunningPoint := mkRunningPoint {
  rp_date : string;
  rp_balance : Z;
  rp_incoming : Z;
  rp_outgoing : Z
}.

Record TypeTotals := mkTypeTotals { Income : Z; Expense : Z }.

(** The numeric fields that go through a division or through
    [Math.max]/[Math.min] are [option Z]: [None] stands for a result that is
    not a finite number (NaN, Infinity or -Infinity). *)
Record Stats := mkStats {
  totalTransactions : Z;
  totalVolume : Z;
  averageAmount : option Z;
  largestTransaction : option Z;
  smallestTransaction : option Z
}.

Record Partner := mkPartner {
  p_name : string;
  p_incoming : Z;
  p_outgoing : Z
}.

Record MonthTotals := mkMonthTotals {
  m_month : string;
  m_incoming : Z;
  m_outgoing : Z
}.

Record PartnerTotal := mkPartnerTotal {
  pt_name : string;
  pt_incoming : Z;
  pt_outgoing : Z;
  pt_total : Z
}.

Record AxiosError := mkAxiosError {
  response_status : option Z;
  code : option string;
  message : string
}.

(** How the [try] block of [fetchData] ends: the three reads resolved, or
    [Promise.all] was rejected with an Axios error, or with another error.
    The responses of a resolved load carry the envelope [data.data] that the
    API documents. The profile is the payload [userRes.data.data] as it
    comes: the code stores it unchecked, [null] ([None]) included. *)
Inductive FetchOutcome :=
| Resolved (txs : list Transaction) (accts : list BankAccount) (u : option User)
| RejectedAxios (e : AxiosError)
| RejectedOther.

(** The component's state hooks, and the value client-local storage holds
    under the key [czechibank_api_key]. *)
Record AppState := mkAppState {
  transactions : list Transaction;
  accounts : list BankAccount;
  loading : bool;
  initialLoading : bool;
  error : option string;
  token : string;
  isAuthenticated : bool;
  sortField : SortField;
  sortOrder : SortOrder;
  currentUser : option User;
  localStorage : option string
}.

Definition unauthorizedMessage : string :=
  "Authentication failed. Please check your API key and try again.".

Definition notFoundMessage : string :=
  "API endpoint not found. Please verify the API server is running and the endpoints are correct.".

Definition refusedMessage : string :=
  "Could not connect to the API server. Please make sure it is running at http://localhost:3000".

Definition unexpectedMessage : string :=
  "An unexpected error occurred. Please try again.".

(** ** Data loader *)

(** [error.response?.status === n] *)
Definition statusIs (e : AxiosError) (n : Z) : bool :=
  match response_status e with
  | Some status => status =? n
  | None => false
  end.

(** [error.code === c] *)
Definition codeIs (e : AxiosError) (c : string) : bool :=
  match code e with
  | Some c' => String.eqb c' c
  | None => false
  end.

(** The [catch] branch for an Axios error: the message shown, and what
    client-local storage holds afterwards. *)
Definition onAxiosError (e : AxiosError) (stored : option string)
  : string * option string :=
  if statusIs e 401 then (unauthorizedMessage, None)
  else if statusIs e 404 then (notFoundMessage, stored)
  else if codeIs e "ECONNREFUSED" then (refusedMessage, stored)
  else (("Failed to fetch data: " ++ message e)%string, stored).

(** The classification the specification calls unauthorized. *)
Definition isUnauthorized (o : FetchOutcome) : bool :=
  match o with
  | RejectedAxios e => statusIs e 401
  | _ => false
  end.

Definition isFailure (o : FetchOutcome) : bool :=
  match o with
  | Resolved _ _ _ => false
  | _ => true
  end.

(** The state once [fetchData authToken] has settled with outcome [o]. *)
Definition fetchData (authToken : string) (o : FetchOutcome) (st : AppState) : AppState :=
  match o with
  | Resolved txs accts u =>
      {| transactions := txs; accounts := accts; loading := false;
         initialLoading := false; error := None; token := token st;
         isAuthenticated := true; sortField := sortField st;
         sortOrder := sortOrder st; currentUser := u;
         localStorage := Some authToken |}
  | RejectedAxios e =>
      let (msg, stored) := onAxiosError e (localStorage st) in
      {| transactions := transactions st; accounts := accounts st;
         loading := false; initialLoading := false;
         error := Some msg; token := token st;
         isAuthenticated := false; sortField := sortField st;
         sortOrder := sortOrder st; currentUser := currentUser st;
         localStorage := stored |}
  | RejectedOther =>
      {| transactions := transactions st; accounts := accounts st;
         loading := false; initialLoading := false;
         error := Some unexpectedMessage; token := token st;
         isAuthenticated := false; sortField := sortField st;
         sortOrder := sortOrder st; currentUser := currentUser st;
         localStorage := localStorage st |}
  end.

(** ** Table sorter: the sort state *)

Definition SortField_eqb (a b : SortField) : bool :=
  match a, b with
  | date_field, date_field | amount_field, amount_field
  | from_field, from_field | to_field, to_field => true
  | _, _ => false
  end.

Definition handleSort (field : SortField) (st : SortField * SortOrder)
  : SortField * SortOrder :=
  let (sortField, sortOrder) := st in
  if SortField_eqb sortField field
  then (sortField, match sortOrder with asc => desc | desc => asc end)
  else (field, asc).

(** ** Session: mount, logout, header icons *)

(** The value of a string in a condition: only the empty string is falsy. *)
Definition truthy (s : string) : bool :=
  match s with
  | EmptyString => false
  | String _ _ => true
  end.

(** The effect run once on mount: a stored credential is put into the form
    and used for a load that ends with outcome [o]; without one only the
    initial loading screen is lifted. *)
Definition onMount (o : FetchOutcome) (st : AppState) : AppState :=
  match localStorage st with
  | Some savedToken =>
      if truthy savedToken
      then fetchData savedToken o
             {| transactions := transactions st; accounts := accounts st;
                loading := loading st; initialLoading := initialLoading st;
                error := error st; token := savedToken;
                isAuthenticated := isAuthenticated st; sortField := sortField st;
                sortOrder := sortOrder st; currentUser := currentUser st;
                localStorage := localStorage st |}
      else
        {| transactions := transactions st; accounts := accounts st;
           loading := loading st; initialLoading := false;
           error := error st; token := token st;
           isAuthenticated := isAuthenticated st; sortField := sortField st;
           sortOrder := sortOrder st; currentUser := currentUser st;
           localStorage := localStorage st |}
  | None =>
      {| transactions := transactions st; accounts := accounts st;
         loading := loading st; initialLoading := false;
         error := error st; token := token st;
         isAuthenticated := isAuthenticated st; sortField := sortField st;
         sortOrder := sortOrder st; currentUser := currentUser st;
         localStorage := localStorage st |}
  end.

(** The click on Continue: a load with the credential typed into the form. *)
Definition submitToken (o : FetchOutcome) (st : AppState) : AppState :=
  fetchData (token st) o st.

(** The click on Logout. *)
Definition logout (st : AppState) : AppState :=
  {| transactions := []; accounts := [];
     loading := loading st; initialLoading := initialLoading st;
     error := error st; token := EmptyString;
     isAuthenticated := false; sortField := sortField st;
     sortOrder := sortOrder st; currentUser := currentUser st;
     localStorage := None |}.

Inductive SortIcon := ChevronsUpDown | ChevronUp | ChevronDown.

Definition getSortIcon (sortField : SortField) (sortOrder : SortOrder)
           (field : SortField) : SortIcon :=
  if negb (SortField_eqb sortField field) then ChevronsUpDown
  else match sortOrder with
       | asc => ChevronUp
       | desc => ChevronDown
       end.

(** The state hooks at their initial values, over a storage that holds
    [stored]. *)
Definition initialState (stored : option string) : AppState :=
  {| transactions := []; accounts := []; loading := false;
     initialLoading := true; error := None; token := EmptyString;
     isAuthenticated := false; sortField := date_field; sortOrder := desc;
     currentUser := None; localStorage := stored |}.

(** The page is loaded: a new instance of the component, its state hooks at
    their initial values, over the storage as it is at that time; the effect
    run on mount settles with outcome [o]. The effect has no other
    occurrence: it runs once for each instance. *)
Definition loadPage (o : FetchOutcome) (stored : option string) : AppState :=
  onMount o (initialState stored).

(** What can happen once the page is loaded: it is loaded again, which
    starts a new instance over the storage the old one leaves; the form
    field is edited; a click on Continue settles with an outcome of the
    load; Logout or a column header is clicked. A load is started on mount or
    from the login form, that is, while not authenticated; until it settles
    the Continue button is disabled, and Logout and the headers, which
    belong to the dashboard, are not shown. Only an edit of the form field
    can fall into a pending load, and it touches no state that the load
    sets. So every run of the component is a page load followed by a
    sequence of these events; the events are not restricted to the states in
    which the page offers them. *)
Inductive Event :=
| Reloaded (o : FetchOutcome)
| Typed (s : string)
| Submitted (o : FetchOutcome)
| LoggedOut
| HeaderClicked (field : SortField).

Definition setTokenField (s : string) (st : AppState) : AppState :=
  {| transactions := transactions st; accounts := accounts st;
     loading := loading st; initialLoading := initialLoading st;
     error := error st; token := s;
     isAuthenticated := isAuthenticated st; sortField := sortField st;
     sortOrder := sortOrder st; currentUser := currentUser st;
     localStorage := localStorage st |}.

Definition setSort (next : SortField * SortOrder) (st : AppState) : AppState :=
  {| transactions := transactions st; accounts := accounts st;
     loading := loading st; initialLoading := initialLoading st;
     error := error st; token := token st;
     isAuthenticated := isAuthenticated st; sortField := fst next;
     sortOrder := snd next; currentUser := currentUser st;
     localStorage := localStorage st |}.

Definition handleEvent (st : AppState) (e : Event) : AppState :=
  match e with
  | Reloaded o => loadPage o (localStorage st)
  | Typed s => setTokenField s st
  | Submitted o => submitToken o st
  | LoggedOut => logout st
  | HeaderClicked field => setSort (handleSort field (sortField st, sortOrder st)) st
  end.

Definition runEvents (events : list Event) (st : AppState) : AppState :=
  fold_left handleEvent events st.

(** A session: the page is loaded over a storage holding [stored], the
    mount effect settles with [o], and then [events] happen. *)
Definition session (stored : option string) (o : FetchOutcome)
           (events : list Event) : AppState :=
  runEvents events (loadPage o stored).

(** No load is pending and the loading screen is gone; the dashboard is
    shown only without an error message and over a stored credential. *)
Definition sessionConsistent (st : AppState) : Prop :=
  loading st = false
  /\ initialLoading st = false
  /\ (isAuthenticated st = true -> error st = None /\ localStorage st <> None).

(** The login form as a new instance shows it when storage holds no
    credential: no data, no error, an empty field. *)
Definition loginForm : AppState :=
  {| transactions := []; accounts := []; loading := false;
     initialLoading := false; error := None; token := EmptyString;
     isAuthenticated := false; sortField := date_field; sortOrder := desc;
     currentUser := None; localStorage := None |}.

(** ** Sample data *)

Definition me : User := mkUser "u-me" "Me" "me@example.com".

Definition myself : Party := mkParty "Me" "u-me".
Definition bob : Party := mkParty "Bob" "u-bob".
Definition alice : Party := mkParty "Alice" "u-alice".
Definition carol : Party := mkParty "Carol" "u-carol".
Definition seven : Party := mkParty "7" "u-seven".
Definition constructorParty : Party := mkParty "constructor" "u-ctor".

Definition transfer (i : string) (a : Z) (time : string) (sender receiver : Party)
  : Transaction :=
  mkTransaction i a time "CZK"
                (mkEndpoint (uid sender) sender) (mkEndpoint (uid receiver) receiver).

Definition accountWith (b : Z) : BankAccount := mkBankAccount "a-1" "u-me" b "CZK" myself.

(** The state after a successful load: the sorter starts on date, descending. *)
Definition loaded (txs : list Transaction) (accts : list BankAccount)
           (cu : option User) : AppState :=
  mkAppState txs accts false false None "key" true date_field desc cu (Some "key"%string).

(** One incoming transaction of 100. *)
Definition salary : Transaction :=
  transfer "1" 100 "2024-03-01T09:00:00.000Z" bob myself.

(** An outgoing transaction of 40 on the next day. *)
Definition rent : Transaction :=
  transfer "2" 40 "2024-03-02T09:00:00.000Z" myself bob.

(** Four incoming transactions; the third and fourth fall on the day and
    month of the first and second, one year later. *)
Definition overAYear : list Transaction :=
  [ transfer "1" 100 "2023-01-01T10:00:00.000Z" bob myself;
    transfer "2" 10 "2023-01-02T10:00:00.000Z" bob myself;
    transfer "3" 1 "2024-01-01T10:00:00.000Z" bob myself;
    transfer "4" 1000 "2024-01-02T10:00:00.000Z" bob myself ].

(** Outgoing transactions to a counterparty named Bob and to one named 7. *)
Definition toBobAndSeven : list Transaction :=
  [ transfer "1" 10 "2024-03-01T09:00:00.000Z" myself bob;
    transfer "2" 10 "2024-03-02T09:00:00.000Z" myself seven ].

(** Outgoing transactions to Bob and to a counterparty named constructor. *)
Definition toBobAndConstructor : list Transaction :=
  [ transfer "1" 10 "2024-03-01T09:00:00.000Z" myself bob;
    transfer "2" 5 "2024-03-02T09:00:00.000Z" myself constructorParty ].

Definition fourPartners : list Transaction :=
  [ transfer "1" 10 "2024-03-01T09:00:00.000Z" myself bob;
    transfer "2" 15 "2024-03-02T09:00:00.000Z" alice myself;
    transfer "3" 5 "2024-03-03T09:00:00.000Z" myself bob;
    transfer "4" 15 "2024-03-04T09:00:00.000Z" myself carol ].

Definition unauthorized : FetchOutcome :=
  RejectedAxios (mkAxiosError (Some 401) None "Request failed with status code 401").

Definition serverError : FetchOutcome :=
  RejectedAxios (mkAxiosError (Some 500) None "Request failed with status code 500").

(** ** The amounts as doubles

    The reduces of [transactionTypes] and of the total volume of
    [transactionStats] once more, with the amount a [number] as the source
    has it: an IEEE 754 double, added with rounding to nearest. *)

Module Doubles.
Local Open Scope float_scope.

Record Transaction := mkTransaction {
  tx_id : string;
  amount : float;
  createdAt : string;
  currency : string;
  from : Endpoint;
  to : Endpoint
}.

Record TypeTotals := mkTypeTotals { Income : float; Expense : float }.

(** [tx.to.user.id === currentUser?.id] *)
Definition isIncomingTransaction (currentUser : option User) (tx : Transaction) : bool :=
  match currentUser with
  | Some u => String.eqb (uid (user (to tx))) (user_id u)
  | None => false
  end.

(** [x || 0] on a number: 0, -0 and NaN are falsy. *)
Definition orZero (x : float) : float :=
  if ((x =? 0) || negb (x =? x))%bool then 0 else x.

Definition transactionTypesStep (currentUser : option User)
           (acc : TypeTotals) (tx : Transaction) : TypeTotals :=
  let amount := abs (amount tx) in
  if isIncomingTransaction currentUser tx
  then {| Income := orZero (Income acc) + amount; Expense := Expense acc |}
  else {| Income := Income acc; Expense := orZero (Expense acc) + amount |}.

Definition transactionTypes (currentUser : option User) (txs : list Transaction)
  : TypeTotals :=
  fold_left (transactionTypesStep currentUser) txs (mkTypeTotals 0 0).

(** [transactions.reduce((sum, tx) => sum + Math.abs(tx.amount), 0)] *)
Definition totalVolume (txs : list Transaction) : float :=
  fold_left (fun sum tx => sum + abs (amount tx)) txs 0.

Definition transfer (i : string) (a : float) (time : string) (sender receiver : Party)
  : Transaction :=
  mkTransaction i a time "CZK"
                (mkEndpoint (uid sender) sender) (mkEndpoint (uid receiver) receiver).

(** 0.1 incoming, 0.1 outgoing, 0.4 incoming: the doubles nearest to these
    fractions, as the literals of the source language denote them. *)
Definition tenths : list Transaction :=
  [ transfer "1" (1 / 10) "2024-03-01T09:00:00.000Z" bob myself;
    transfer "2" (1 / 10) "2024-03-02T09:00:00.000Z" myself bob;
    transfer "3" (4 / 10) "2024-03-03T09:00:00.000Z" bob myself ].

(** 100 incoming, 40 outgoing: the amounts of [salary] and [rent]. *)
Definition salaryAndRent : list Transaction :=
  [ transfer "1" 100 "2024-03-01T09:00:00.000Z" bob myself;
    transfer "2" 40 "2024-03-02T09:00:00.000Z" myself bob ].

(** 1 incoming, 2^53 outgoing, 1 incoming: integers, each of them a double. *)
Definition aroundMaxExact : list Transaction :=
  [ transfer "1" 1 "2024-03-01T09:00:00.000Z" bob myself;
    transfer "2" 9007199254740992 "2024-03-02T09:00:00.000Z" myself bob;
    transfer "3" 1 "2024-03-03T09:00:00.000Z" bob myself ].
End Doubles.

(** ** The transforms *)

Section Dashboard.
(** [new Date(s).getTime()] *)
Variable getTime : string -> Z.
(** [new Date(s).toLocaleString('cs-CZ', { month: 'numeric', day: 'numeric' })] *)
Variable csDate : string -> string.
(** [a.localeCompare(b)] *)
Variable localeCompare : string -> string -> Z.

(** [tx.to.user.id === currentUser?.id]: with no profile the right-hand
    side is [undefined], which no id string equals. *)
Definition isIncomingTransaction (currentUser : option User) (tx : Transaction) : bool :=
  match currentUser with
  | Some u => String.eqb (uid (user (to tx))) (user_id u)
  | None => false
  end.

Definition timeOf (tx : Transaction) : Z := getTime (createdAt tx).

Definition byDateAsc (a b : Transaction) : Z :=
  getTime (createdAt a) - getTime (createdAt b).

Definition byDateDesc (a b : Transaction) : Z :=
  getTime (createdAt b) - getTime (createdAt a).

(** *** Chronological balance curve *)

Definition lastBalanceOf (acc : list BalancePoint) : Z :=
  match lastElement acc with
  | Some p => bp_balance p
  | None => 0
  end.

Definition forwardAmount (currentUser : option User) (tx : Transaction) : Z :=
  if isIncomingTransaction currentUser tx
  then Z.abs (amount tx) else - Z.abs (amount tx).

Definition setBalance (b : Z) (item : BalancePoint) : BalancePoint :=
  {| bp_date := bp_date item; bp_balance := b;
     bp_transactionAmount := bp_transactionAmount item |}.

Definition balanceStep (currentUser : option User)
           (acc : list BalancePoint) (tx : Transaction) : list BalancePoint :=
  let lastBalance := lastBalanceOf acc in
  let transactionAmount := forwardAmount currentUser tx in
  let newBalance := lastBalance + transactionAmount in
  let date := csDate (createdAt tx) in
  match findIndex (fun item => String.eqb (bp_date item) date) acc with
  | Some existingDateIndex =>
      updateAt existingDateIndex (setBalance newBalance) acc
  | None => acc ++ [mkBalancePoint date newBalance transactionAmount]
  end.

(** [balanceData]: the curve, and the contents of the [transactions]
    array afterwards ([sort] is applied to the state array itself). *)
Definition balanceData (currentUser : option User) (txs : list Transaction)
  : list BalancePoint * list Transaction :=
  let sorted := arraySort byDateAsc txs in
  (fold_left (balanceStep currentUser) sorted [], sorted).

(** *** Income-vs-expense totals *)

(** [x || 0] on a number *)
Definition orZero (x : Z) : Z := if x =? 0 then 0 else x.

Definition transactionTypesStep (currentUser : option User)
           (acc : TypeTotals) (tx : Transaction) : TypeTotals :=
  let amount := Z.abs (amount tx) in
  if isIncomingTransaction currentUser tx
  then {| Income := orZero (Income acc) + amount; Expense := Expense acc |}
  else {| Income := Income acc; Expense := orZero (Expense acc) + amount |}.

Definition transactionTypes (currentUser : option User) (txs : list Transaction)
  : TypeTotals :=
  fold_left (transactionTypesStep currentUser) txs (mkTypeTotals 0 0).

(** *** Summary statistics *)

Definition sumAbs (txs : list Transaction) : Z :=
  fold_left (fun sum tx => sum + Z.abs (amount tx)) txs 0.

(** [Math.round(s / n)] for integers [s] and [n]: a division by zero gives
    NaN or an infinity, otherwise the quotient is rounded to the nearest
    integer, halves upwards: floor (s / n + 1/2). The code rounds the double
    nearest to the quotient, not the quotient. The quotient of [s] by [n]
    is at least 1 / (2 n) away from every half-integer it does not equal,
    and the double nearest to it is off by at most s / (n 2^53); so for
    0 <= s, 0 < n and 2 s + n < 2^53 ([exactAverage]) that double lies on
    the same side of every half-integer as the quotient, and both round to
    the same integer. Beyond that range they can differ. *)
Definition roundDiv (s n : Z) : option Z :=
  if n =? 0 then None else Some ((2 * s + n) / (2 * n)).

(** [Math.max(...xs)]: -Infinity on no argument. *)
Definition mathMax (xs : list Z) : option Z :=
  match xs with
  | [] => None
  | x :: xs' => Some (fold_left Z.max xs' x)
  end.

(** [Math.min(...xs)]: Infinity on no argument. *)
Definition mathMin (xs : list Z) : option Z :=
  match xs with
  | [] => None
  | x :: xs' => Some (fold_left Z.min xs' x)
  end.

Definition transactionStats (txs : list Transaction) : Stats :=
  let length := Z.of_nat (List.length txs) in
  {| totalTransactions := length;
     totalVolume := sumAbs txs;
     averageAmount :=
       if 0 <? length then roundDiv (sumAbs txs) length else Some 0;
     largestTransaction :=
       if 0 <? length then mathMax (map (fun tx => Z.abs (amount tx)) txs)
       else Some 0;
     smallestTransaction :=
       if 0 <? length then mathMin (map (fun tx => Z.abs (amount tx)) txs)
       else Some 0 |}.

(** *** Top counterparties *)

Definition partnerNameOf (currentUser : option User) (tx : Transaction) : string :=
  if isIncomingTransaction currentUser tx
  then name (user (from tx)) else name (user (to tx)).

Definition addIncoming (a : Z) (p : Partner) : Partner :=
  {| p_name := p_name p; p_incoming := p_incoming p + a; p_outgoing := p_outgoing p |}.

Definition addOutgoing (a : Z) (p : Partner) : Partner :=
  {| p_name := p_name p; p_incoming := p_incoming p; p_outgoing := p_outgoing p + a |}.

(** One step of the reduce. [acc[partnerName]] is an own entry, or a member
    inherited from [Object.prototype], or undefined. Only in the last case
    is an entry created. An inherited member is truthy, so the [+=] lands on
    that shared member and [acc] gets no own property. *)
Definition topPartnersStep (currentUser : option User)
           (acc : JsObject Partner) (tx : Transaction) : JsObject Partner :=
  let isIncoming := isIncomingTransaction currentUser tx in
  let partnerName := partnerNameOf currentUser tx in
  let amount := Z.abs (amount tx) in
  let bump := if isIncoming then addIncoming amount else addOutgoing amount in
  match getOwn partnerName acc with
  | Some _ => modifyOwn partnerName bump acc
  | None =>
      if inheritedKey partnerName then acc
      else modifyOwn partnerName bump
             (defineOwn partnerName (mkPartner partnerName 0 0) acc)
  end.

Definition topPartners (currentUser : option User) (txs : list Transaction)
  : JsObject Partner :=
  fold_left (topPartnersStep currentUser) txs [].

Definition withTotal (partner : Partner) : PartnerTotal :=
  {| pt_name := p_name partner; pt_incoming := p_incoming partner;
     pt_outgoing := p_outgoing partner;
     pt_total := p_incoming partner + p_outgoing partner |}.

Definition byTotalDesc (a b : PartnerTotal) : Z := pt_total b - pt_total a.

Definition topPartnersData (currentUser : option User) (txs : list Transaction)
  : list PartnerTotal :=
  firstn 5 (arraySort byTotalDesc
              (map withTotal (objectValues (topPartners currentUser txs)))).

(** *** Table sorter: the comparator and the sorted copy *)

Definition multiplierOf (sortOrder : SortOrder) : Z :=
  match sortOrder with asc => 1 | desc => -1 end.

Definition tableCompare (sortField : SortField) (sortOrder : SortOrder)
           (a b : Transaction) : Z :=
  let multiplier := multiplierOf sortOrder in
  match sortField with
  | date_field => (getTime (createdAt a) - getTime (createdAt b)) * multiplier
  | amount_field => (amount a - amount b) * multiplier
  | from_field =>
      localeCompare (name (user (from a))) (name (user (from b))) * multiplier
  | to_field =>
      localeCompare (name (user (to a))) (name (user (to b))) * multiplier
  end.

(** [[...transactions].sort(...)]: the copy is sorted, the array is not. *)
Definition sortedTransactions (sortField : SortField) (sortOrder : SortOrder)
           (txs : list Transaction) : list Transaction :=
  arraySort (tableCompare sortField sortOrder) txs.

(** *** Running balance, newest first, then reversed *)

Definition seedBalance (accounts : list BankAccount) : Z :=
  match accounts with
  | a :: _ => orZero (acct_balance a)
  | [] => 0
  end.

Definition currentBalanceOf (accounts : list BankAccount) (acc : list RunningPoint) : Z :=
  match lastElement acc with
  | Some p => rp_balance p
  | None => seedBalance accounts
  end.

Definition backwardAmount (currentUser : option User) (tx : Transaction) : Z :=
  if isIncomingTransaction currentUser tx
  then - Z.abs (amount tx) else Z.abs (amount tx).

Definition bumpRunning (isIncoming : bool) (a newBalance : Z) (item : RunningPoint)
  : RunningPoint :=
  {| rp_date := rp_date item;
     rp_balance := newBalance;
     rp_incoming := if isIncoming then rp_incoming item + a else rp_incoming item;
     rp_outgoing := if isIncoming then rp_outgoing item else rp_outgoing item - a |}.

Definition runningStep (currentUser : option User) (accounts : list BankAccount)
           (acc : list RunningPoint) (tx : Transaction) : list RunningPoint :=
  let currentBalance := currentBalanceOf accounts acc in
  let isIncoming := isIncomingTransaction currentUser tx in
  let transactionAmount := backwardAmount currentUser tx in
  let newBalance := currentBalance + transactionAmount in
  let date := csDate (createdAt tx) in
  match findIndex (fun item => String.eqb (rp_date item) date) acc with
  | Some existingDateIndex =>
      updateAt existingDateIndex
               (bumpRunning isIncoming (Z.abs (amount tx)) newBalance) acc
  | None =>
      acc ++ [mkRunningPoint date newBalance
                (if isIncoming then Z.abs (amount tx) else 0)
                (if isIncoming then 0 else - Z.abs (amount tx))]
  end.

(** [runningBalanceData]: the curve, and the contents of the
    [transactions] array afterwards (sorted in place, newest first). *)
Definition runningBalanceData (currentUser : option User)
           (accounts : list BankAccount) (txs : list Transaction)
  : list RunningPoint * list Transaction :=
  let sorted := arraySort byDateDesc txs in
  (rev (fold_left (runningStep currentUser accounts) sorted []), sorted).

(** *** One render of the component

    The body of the component evaluates the transforms in source order on
    the one [transactions] array of the state. *)

Record Rendered := mkRendered {
  r_balanceData : list BalancePoint;
  r_transactionTypes : TypeTotals;
  r_transactionStats : Stats;
  r_topPartnersData : list PartnerTotal;
  r_sortedTransactions : list Transaction;
  r_runningBalanceData : list RunningPoint;
  r_transactions : list Transaction
}.

Definition render (st : AppState) : Rendered :=
  let (balance, txs1) := balanceData (currentUser st) (transactions st) in
  let types := transactionTypes (currentUser st) txs1 in
  let stats := transactionStats txs1 in
  let partners := topPartnersData (currentUser st) txs1 in
  let table := sortedTransactions (sortField st) (sortOrder st) txs1 in
  let (running, txs2) := runningBalanceData (currentUser st) (accounts st) txs1 in
  {| r_balanceData := balance; r_transactionTypes := types;
     r_transactionStats := stats; r_topPartnersData := partners;
     r_sortedTransactions := table; r_runningBalanceData := running;
     r_transactions := txs2 |}.

(** The state a render leaves behind: the array was reordered in place. *)
Definition afterRender (st : AppState) : AppState :=
  {| transactions := r_transactions (render st); accounts := accounts st;
     loading := loading st; initialLoading := initialLoading st;
     error := error st; token := token st;
     isAuthenticated := isAuthenticated st; sortField := sortField st;
     sortOrder := sortOrder st; currentUser := currentUser st;
     localStorage := localStorage st |}.

(** A click on a column header, between two renders. *)
Definition clickHeader (field : SortField) (st : AppState) : AppState :=
  let next := handleSort field (sortField st, sortOrder st) in
  {| transactions := transactions st; accounts := accounts st;
     loading := loading st; initialLoading := initialLoading st;
     error := error st; token := token st;
     isAuthenticated := isAuthenticated st; sortField := fst next;
     sortOrder := snd next; currentUser := currentUser st;
     localStorage := localStorage st |}.

(** *** Notions the properties are stated with *)

(** The position at which [k] first occurs in [names] (the length of
    [names] when it does not occur). *)
Definition firstIndexOf (k : string) (names : list string) : nat :=
  match findIndex (String.eqb k) names with
  | Some i => i
  | None => List.length names
  end.

(** The distinct names of a list, each at its first occurrence. *)
Definition firstSeen (names : list string) : list string :=
  fold_left (fun seen k => if existsb (String.eqb k) seen then seen else seen ++ [k])
            names [].

(** Sum of the incoming amounts received from the counterparty named [k]. *)
Definition incomingFrom (cu : option User) (k : string) (txs : list Transaction) : Z :=
  sumAbs (filter (fun tx => isIncomingTransaction cu tx
                            && String.eqb (partnerNameOf cu tx) k) txs).

(** Sum of the outgoing amounts sent to the counterparty named [k]. *)
Definition outgoingTo (cu : option User) (k : string) (txs : list Transaction) : Z :=
  sumAbs (filter (fun tx => negb (isIncomingTransaction cu tx)
                            && String.eqb (partnerNameOf cu tx) k) txs).

(** Net effect of the transactions on the balance: incoming amounts
    count positive, the others negative. *)
Definition netAmount (cu : option User) (txs : list Transaction) : Z :=
  fold_right (fun tx s => forwardAmount cu tx + s) 0 txs.

Definition onDate (d : string) (tx : Transaction) : bool :=
  String.eqb (csDate (createdAt tx)) d.


(** The transactions that share a date label are adjacent in time: no
    transaction of another label lies between two of them. *)
Definition sameDatesAdjacent (txs : list Transaction) : Prop :=
  forall a b c,
    In a txs -> In b txs -> In c txs ->
    timeOf a <= timeOf b -> timeOf b <= timeOf c ->
    csDate (createdAt a) = csDate (createdAt c) ->
    csDate (createdAt b) = csDate (createdAt a).

(** What the accumulator of [topPartners] holds for the name [k], and the
    names it holds an entry for, in creation order. *)
Definition partnerEntry (cu : option User) (txs : list Transaction) (k : string)
  : string * Partner :=
  (k, mkPartner k (incomingFrom cu k txs) (outgoingTo cu k txs)).

Definition ownNames (cu : option User) (txs : list Transaction) : list string :=
  firstSeen (filter (fun k => negb (inheritedKey k)) (map (partnerNameOf cu) txs)).

(** The chart entry of the counterparty named [k]. *)
Definition partnerTotalOf (cu : option User) (txs : list Transaction) (k : string)
  : PartnerTotal :=
  withTotal (snd (partnerEntry cu txs k)).

Definition dateOf (tx : Transaction) : string := csDate (createdAt tx).

(** In the array [l] the transactions of one date label stand together. *)
Definition grouped (l : list Transaction) : Prop :=
  forall l1 a l2 b l3,
    l = l1 ++ a :: l2 ++ b :: l3 ->
    dateOf a = dateOf b ->
    forall c, In c l2 -> dateOf c = dateOf a.

(** Sum of the incoming amounts of the transactions whose date label is [d]. *)
Definition incomingOn (cu : option User) (d : string) (txs : list Transaction) : Z :=
  sumAbs (filter (fun tx => isIncomingTransaction cu tx && onDate d tx) txs).

(** Sum of the outgoing amounts of the transactions whose date label is [d]. *)
Definition outgoingOn (cu : option User) (d : string) (txs : list Transaction) : Z :=
  sumAbs (filter (fun tx => negb (isIncomingTransaction cu tx) && onDate d tx) txs).

(** The sum of a numeric field over an array. *)
Definition total {A : Type} (f : A -> Z) (l : list A) : Z :=
  fold_right (fun x s => f x + s) 0 l.

(** The largest integer up to which every integer is a double, 2^53. *)
Definition maxExact : Z := 2 ^ 53.

(** The absolute amounts add up to at most [maxExact]: every sum the
    transforms take of these amounts, in whatever order and with whatever
    signs, is then an integer in the range in which doubles add without
    rounding. *)
Definition exactVolume (txs : list Transaction) : Prop := sumAbs txs <= maxExact.

(** The range in which the average is the rounding of the exact mean: see
    [roundDiv]. *)
Definition exactAverage (txs : list Transaction) : Prop :=
  2 * sumAbs txs + Z.of_nat (List.length txs) < maxExact.

(** The seed and the absolute amounts add up to at most [maxExact]: every
    balance of the two curves is then an integer in the exact range. *)
Definition exactBalances (accounts : list BankAccount) (txs : list Transaction)
  : Prop :=
  Z.abs (seedBalance accounts) + sumAbs txs <= maxExact.

(** *** Monthly totals, as the notions above are needed to state them *)

(** [new Date(s).toLocaleString('default', { month: 'long' })] *)
Variable monthName : string -> string.

Definition monthOf (tx : Transaction) : string := monthName (createdAt tx).

Definition addMonthIncoming (a : Z) (m : MonthTotals) : MonthTotals :=
  {| m_month := m_month m; m_incoming := m_incoming m + a; m_outgoing := m_outgoing m |}.

Definition subMonthOutgoing (a : Z) (m : MonthTotals) : MonthTotals :=
  {| m_month := m_month m; m_incoming := m_incoming m; m_outgoing := m_outgoing m - a |}.

(** One step of the reduce of [monthlyData]; as in [topPartnersStep], a month
    name found on [Object.prototype] is truthy under [acc[month]] and gets no
    own entry. *)
Definition monthlyStep (currentUser : option User)
           (acc : JsObject MonthTotals) (tx : Transaction) : JsObject MonthTotals :=
  let month := monthName (createdAt tx) in
  let isIncoming := isIncomingTransaction currentUser tx in
  let amount := Z.abs (amount tx) in
  let bump := if isIncoming then addMonthIncoming amount else subMonthOutgoing amount in
  match getOwn month acc with
  | Some _ => modifyOwn month bump acc
  | None =>
      if inheritedKey month then acc
      else modifyOwn month bump (defineOwn month (mkMonthTotals month 0 0) acc)
  end.

Definition monthlyData (currentUser : option User) (txs : list Transaction)
  : JsObject MonthTotals :=
  fold_left (monthlyStep currentUser) txs [].

Definition monthlyChartData (currentUser : option User) (txs : list Transaction)
  : list MonthTotals :=
  objectValues (monthlyData currentUser txs).

(** Sums of the incoming and of the outgoing amounts of the month [m]. *)
Definition incomingIn (cu : option User) (m : string) (txs : list Transaction) : Z :=
  sumAbs (filter (fun tx => isIncomingTransaction cu tx && String.eqb (monthOf tx) m) txs).

Definition outgoingIn (cu : option User) (m : string) (txs : list Transaction) : Z :=
  sumAbs (filter (fun tx => negb (isIncomingTransaction cu tx)
                            && String.eqb (monthOf tx) m) txs).

Definition monthEntry (cu : option User) (txs : list Transaction) (m : string)
  : string * MonthTotals :=
  (m, mkMonthTotals m (incomingIn cu m txs) (- outgoingIn cu m txs)).

Definition ownMonths (txs : list Transaction) : list string :=
  firstSeen (filter (fun k => negb (inheritedKey k)) (map monthOf txs)).

(** *** Daily transaction counts *)

(** [new Date(s).toLocaleString('default', { month: 'numeric', day: 'numeric' })] *)
Variable defaultDate : string -> string.

Definition dayOf (tx : Transaction) : string := defaultDate (createdAt tx).

(** One step of the reduce, [acc[date] = (acc[date] || 0) + 1]. A date that
    names a member of [Object.prototype] reads that member, which [+ 1] turns
    into text; the assignment then creates an own property, except under
    [__proto__], whose setter ignores a string. A date not seen before reads
    [undefined] and is stored as 1. *)
Definition dailyStep (acc : JsObject DayValue) (tx : Transaction) : JsObject DayValue :=
  let date := defaultDate (createdAt tx) in
  match getOwn date acc with
  | Some (Count n) => modifyOwn date (fun _ => Count (orZero n + 1)) acc
  | Some Text => modifyOwn date (fun _ => Text) acc
  | None =>
      if String.eqb date "__proto__" then acc
      else if inheritedKey date then defineOwn date Text acc
           else defineOwn date (Count 1) acc
  end.

Definition dailyTransactionCount (txs : list Transaction) : JsObject DayValue :=
  fold_left dailyStep txs [].

(** The comparator of the daily chart on two labels that [monthDay] reads:
    [(aMonth - bMonth) || (aDay - bDay)]. *)
Definition dailyCompare (a b : DayCount) : Z :=
  match monthDay (d_date a), monthDay (d_date b) with
  | Some (aMonth, aDay), Some (bMonth, bDay) =>
      if aMonth - bMonth =? 0 then aDay - bDay else aMonth - bMonth
  | _, _ => 0
  end.

Definition readable (e : DayCount) : bool :=
  match monthDay (d_date e) with Some _ => true | None => false end.

(** [dailyTransactionData], for the arrays in which [monthDay] reads every
    label; [None] when it does not read one of them (the comparator then
    works on values that are not modelled here). *)
Definition dailyTransactionData (txs : list Transaction) : option (list DayCount) :=
  let entries :=
    map (fun kv => mkDayCount (fst kv) (snd kv))
        (ownEntries (dailyTransactionCount txs)) in
  if forallb readable entries
  then Some (arraySort dailyCompare entries)
  else None.

(** The number of transactions whose daily label is [k]. *)
Definition countOn (k : string) (txs : list Transaction) : Z :=
  Z.of_nat (List.length (filter (fun tx => String.eqb (dayOf tx) k) txs)).

Definition dayEntry (txs : list Transaction) (k : string) : string * DayValue :=
  (k, Count (countOn k txs)).

(** The number a daily entry holds. *)
Definition countValue (v : DayValue) : Z :=
  match v with
  | Count n => n
  | Text => 0
  end.

(** The order of the daily chart: by month, then by day. *)
Definition monthDayLe (a b : Z * Z) : Prop :=
  fst a < fst b \/ (fst a = fst b /\ snd a <= snd b).

(** *** One render, with every view

    [render] together with the two views that it leaves out: like the income
    and expense totals they are computed between the two in-place sorts, on
    the array as [balanceData] leaves it. *)

Record Views := mkViews {
  v_rendered : Rendered;
  v_monthlyChartData : list MonthTotals;
  v_dailyTransactionData : option (list DayCount)
}.

Definition renderViews (st : AppState) : Views :=
  let txs1 := snd (balanceData (currentUser st) (transactions st)) in
  {| v_rendered := render st;
     v_monthlyChartData := monthlyChartData (currentUser st) txs1;
     v_dailyTransactionData := dailyTransactionData txs1 |}.

(** ** Facts about arrays and the stable sort *)

Section ArrayFacts.
Context {A : Type}.
Implicit Types (cmp : A -> A -> Z) (l : list A).

Lemma before_In (a b : A) l : before a b l -> In a l /\ In b l.
Proof.
  induction 1 as [l Hb | x l _ [IHa IHb]]; simpl; auto.
Qed.

Lemma before_app (a b : A) l1 l2 :
  before a b (l1 ++ l2) <->
  before a b l1 \/ before a b l2 \/ (In a l1 /\ In b l2).
Proof.
  induction l1 as [| x l1 IH]; simpl.
  - split; [auto | intros [H | [H | [[] _]]]; [inversion H | exact H]].
  - split.
    + intros H. inversion H as [l Hb | y l Hb]; subst.
      * apply in_app_or in Hb as [Hb | Hb].
        -- left. now constructor.
        -- right. right. auto.
      * apply IH in Hb as [Hb | [Hb | [Ha Hb]]]; auto.
        left. now constructor 2.
    + intros [H | [H | [[Ha | Ha] Hb]]].
      * inversion H as [l Hb | y l Hb]; subst.
        -- constructor. apply in_or_app. auto.
        -- constructor 2. apply IH. auto.
      * constructor 2. apply IH. auto.
      * subst. constructor. apply in_or_app. auto.
      * constructor 2. apply IH. auto.
Qed.

Lemma before_cons (a b x : A) l :
  before a b (x :: l) <-> (a = x /\ In b l) \/ before a b l.
Proof.
  split.
  - intros H. inversion H; subst; auto.
  - intros [[-> Hb] | H]; [now constructor | now constructor 2].
Qed.

Lemma before_firstn (a b : A) n l : before a b (firstn n l) -> before a b l.
Proof.
  intros H. rewrite <- (firstn_skipn n l). apply before_app. auto.
Qed.

Lemma insertBy_perm cmp x l : Permutation (insertBy cmp x l) (x :: l).
Proof.
  induction l as [| y l IH]; simpl; [reflexivity |].
  destruct (cmp x y <=? 0); [reflexivity |].
  rewrite IH. apply perm_swap.
Qed.

Lemma arraySort_perm cmp l : Permutation (arraySort cmp l) l.
Proof.
  induction l as [| x l IH]; simpl; [reflexivity |].
  rewrite insertBy_perm. now constructor.
Qed.

Lemma arraySort_In cmp l x : In x (arraySort cmp l) <-> In x l.
Proof.
  split; apply Permutation_in;
    [apply arraySort_perm | symmetry; apply arraySort_perm].
Qed.

Lemma arraySort_length cmp l :
  List.length (arraySort cmp l) = List.length l.
Proof. apply Permutation_length, arraySort_perm. Qed.

Lemma arraySort_ext cmp cmp' l :
  (forall a b, cmp a b = cmp' a b) -> arraySort cmp l = arraySort cmp' l.
Proof.
  intros E. induction l as [| x l IH]; simpl; [reflexivity |].
  rewrite IH. generalize (arraySort cmp' l) as s.
  induction s as [| y s IHs]; simpl; [reflexivity |].
  now rewrite E, IHs.
Qed.

Lemma insertBy_sorted cmp x l :
  antisymmetric cmp ->
  Sorted (ordered cmp) l -> Sorted (ordered cmp) (insertBy cmp x l).
Proof.
  intros Hc. induction 1 as [| y l Hl IH Hy]; simpl.
  - repeat constructor.
  - destruct (Z.leb_spec (cmp x y) 0) as [Hle | Hgt].
    + constructor; [now constructor | now constructor].
    + constructor; [exact IH |].
      destruct l as [| z l]; simpl.
      * constructor. now apply Z.lt_le_incl, Hc.
      * destruct (cmp x z <=? 0); constructor.
        -- now apply Z.lt_le_incl, Hc.
        -- now inversion Hy.
Qed.

Lemma arraySort_sorted cmp l :
  antisymmetric cmp -> Sorted (ordered cmp) (arraySort cmp l).
Proof.
  intros Hc. induction l; simpl; [constructor | now apply insertBy_sorted].
Qed.

Lemma arraySort_id cmp l : Sorted (ordered cmp) l -> arraySort cmp l = l.
Proof.
  induction 1 as [| x l Hl IH Hx]; simpl; [reflexivity |].
  rewrite IH. destruct Hx as [| y l Hxy]; simpl; [reflexivity |].
  unfold ordered in Hxy. apply Z.leb_le in Hxy. now rewrite Hxy.
Qed.

(** Stability: the sort moves [b] behind [a] only when the comparator
    puts [b] strictly after [a]. *)
Lemma before_insertBy cmp (a b x : A) l :
  before a b (insertBy cmp x l) ->
  before a b l \/ (a = x /\ In b l) \/ (b = x /\ 0 < cmp x a).
Proof.
  induction l as [| y l IH]; simpl; intros H.
  - inversion H as [? Hb | ? ? Hb]; subst; [destruct Hb | inversion Hb].
  - destruct (Z.leb_spec (cmp x y) 0) as [Hle | Hgt].
    + apply before_cons in H as [[-> Hb] | H]; auto.
    + apply before_cons in H as [[-> Hb] | H].
      * apply (Permutation_in _ (insertBy_perm cmp x l)) in Hb.
        destruct Hb as [<- | Hb]; [auto |].
        left. now constructor.
      * destruct (IH H) as [H1 | [[-> Hb] | H3]].
        -- left. now constructor 2.
        -- right. left. simpl. auto.
        -- auto.
Qed.

Lemma before_arraySort cmp (a b : A) l :
  before a b (arraySort cmp l) -> before a b l \/ 0 < cmp b a.
Proof.
  induction l as [| x l IH]; simpl; intros H; [inversion H |].
  apply before_insertBy in H as [H | [[-> Hb] | [-> Hb]]].
  - destruct (IH H); [left; now constructor 2 | auto].
  - left. constructor. now apply arraySort_In in Hb.
  - auto.
Qed.
End ArrayFacts.

Lemma before_map {A B : Type} (f : A -> B) (x y : B) (l : list A) :
  before x y (map f l) ->
  exists a b, before a b l /\ f a = x /\ f b = y.
Proof.
  induction l as [| c l IH]; simpl; intros H; [inversion H |].
  apply before_cons in H as [[-> Hy] | H].
  - apply in_map_iff in Hy as [b [Hb Hin]].
    exists c, b. split; [now constructor | auto].
  - destruct (IH H) as [a [b [Hab Hf]]].
    exists a, b. split; [now constructor 2 | exact Hf].
Qed.

(** Sorting by a numeric key: the result is the one ascending arrangement
    that keeps the elements of equal key in their array order. *)
Section KeySort.
Context {A : Type} (key : A -> Z).
Implicit Types (l : list A).

Lemma byKey_antisymmetric : antisymmetric (byKey key).
Proof. unfold antisymmetric, byKey. intros. lia. Qed.


Lemma arraySort_byKey_sorted l :
  StronglySorted (ordered (byKey key)) (arraySort (byKey key) l).
Proof.
  apply Sorted_StronglySorted.
  - unfold ordered, byKey. intros a b c. lia.
  - apply arraySort_sorted, byKey_antisymmetric.
Qed.

Lemma withKey_insertBy cmp v x l :
  (forall a b, 0 < cmp a b -> key a <> key b) ->
  withKey key v (insertBy cmp x l) = withKey key v (x :: l).
Proof.
  intros Hc. induction l as [| y l IH]; simpl; [reflexivity |].
  destruct (Z.leb_spec (cmp x y) 0) as [Hle | Hgt]; [reflexivity |].
  apply Hc in Hgt. simpl in *. rewrite IH.
  destruct (Z.eqb_spec (key x) v), (Z.eqb_spec (key y) v);
    try reflexivity; congruence.
Qed.

Lemma withKey_arraySort cmp v l :
  (forall a b, 0 < cmp a b -> key a <> key b) ->
  withKey key v (arraySort cmp l) = withKey key v l.
Proof.
  intros Hc. induction l as [| x l IH]; simpl; [reflexivity |].
  rewrite withKey_insertBy by exact Hc. simpl. now rewrite IH.
Qed.

Lemma withKey_In v x l : In x (withKey key v l) <-> In x l /\ key x = v.
Proof.
  unfold withKey. rewrite filter_In, Z.eqb_eq. reflexivity.
Qed.

Lemma sorted_by_key_unique l1 l2 :
  StronglySorted (ordered (byKey key)) l1 ->
  StronglySorted (ordered (byKey key)) l2 ->
  (forall v, withKey key v l1 = withKey key v l2) ->
  l1 = l2.
Proof.
  intros H1. revert l2.
  induction H1 as [| x l1 Hs1 IH Hx]; intros l2 H2 E.
  - destruct l2 as [| y l2]; [reflexivity |].
    specialize (E (key y)). simpl in E. now rewrite Z.eqb_refl in E.
  - destruct H2 as [| y l2 Hs2 Hy].
    + specialize (E (key x)). simpl in E. now rewrite Z.eqb_refl in E.
    + assert (Hk : key x = key y).
      { assert (Hx2 : In x (y :: l2)).
        { apply (withKey_In (key x)). rewrite <- E.
          apply withKey_In. simpl. auto. }
        assert (Hy1 : In y (x :: l1)).
        { apply (withKey_In (key y)). rewrite E.
          apply withKey_In. simpl. auto. }
        rewrite Forall_forall in Hx, Hy. unfold ordered, byKey in Hx, Hy.
        destruct Hx2 as [-> | Hx2]; [reflexivity |].
        destruct Hy1 as [-> | Hy1]; [reflexivity |].
        specialize (Hx _ Hy1). specialize (Hy _ Hx2). lia. }
      assert (Hxy : x = y).
      { specialize (E (key x)). simpl in E.
        rewrite <- Hk, Z.eqb_refl in E. congruence. }
      subst y. f_equal. apply IH; [exact Hs2 |].
      intros v. specialize (E v). simpl in E.
      destruct (key x =? v); congruence.
Qed.

(** Sorting descending first does not change what an ascending sort
    returns: both keep equal keys in the order of the original array. *)
Lemma arraySort_asc_after_desc l :
  arraySort (byKey key) (arraySort (byKey (fun a => - key a)) l)
  = arraySort (byKey key) l.
Proof.
  apply sorted_by_key_unique; try apply arraySort_byKey_sorted.
  intros v.
  rewrite !(withKey_arraySort (byKey key))
    by (unfold byKey; intros; lia).
  apply withKey_arraySort. unfold byKey. intros. lia.
Qed.
End KeySort.

Lemma arraySort_desc_after_asc {A : Type} (key : A -> Z) (l : list A) :
  arraySort (byKey (fun a => - key a)) (arraySort (byKey key) l)
  = arraySort (byKey (fun a => - key a)) l.
Proof.
  rewrite <- (arraySort_asc_after_desc (fun a => - key a) l).
  f_equal. apply arraySort_ext. unfold byKey. intros. lia.
Qed.

(** ** The two in-place sorts of a render *)

Lemma byDateDesc_byKey (l : list Transaction) :
  arraySort byDateDesc l = arraySort (byKey (fun tx => - timeOf tx)) l.
Proof.
  apply arraySort_ext. unfold byDateDesc, byKey, timeOf. intros. lia.
Qed.

Lemma sortAsc_after_sortDesc (l : list Transaction) :
  arraySort byDateAsc (arraySort byDateDesc l) = arraySort byDateAsc l.
Proof.
  rewrite byDateDesc_byKey. apply (arraySort_asc_after_desc timeOf).
Qed.

Lemma sortDesc_after_sortAsc (l : list Transaction) :
  arraySort byDateDesc (arraySort byDateAsc l) = arraySort byDateDesc l.
Proof.
  rewrite !byDateDesc_byKey. apply (arraySort_desc_after_asc timeOf).
Qed.

(** ** Income-vs-expense totals and the total volume *)

Lemma orZero_id (x : Z) : orZero x = x.
Proof. unfold orZero. destruct (Z.eqb_spec x 0); congruence. Qed.

Lemma sumAbs_from (txs : list Transaction) (s : Z) :
  fold_left (fun sum tx => sum + Z.abs (amount tx)) txs s = s + sumAbs txs.
Proof.
  unfold sumAbs. revert s.
  induction txs as [| tx txs IH]; intros s; simpl; [lia |].
  rewrite (IH (s + _)), (IH (Z.abs _)). lia.
Qed.

Lemma sumAbs_cons (tx : Transaction) (txs : list Transaction) :
  sumAbs (tx :: txs) = Z.abs (amount tx) + sumAbs txs.
Proof. unfold sumAbs at 1. simpl. apply sumAbs_from. Qed.

Lemma sumAbs_nonneg (txs : list Transaction) : 0 <= sumAbs txs.
Proof.
  induction txs as [| tx txs IH]; [unfold sumAbs; simpl; lia |].
  rewrite sumAbs_cons. lia.
Qed.

Lemma sumAbs_partition (p : Transaction -> bool) (txs : list Transaction) :
  sumAbs (filter p txs) + sumAbs (filter (fun tx => negb (p tx)) txs)
  = sumAbs txs.
Proof.
  induction txs as [| tx txs IH]; [reflexivity |].
  simpl. destruct (p tx); simpl; rewrite !sumAbs_cons; lia.
Qed.

Lemma transactionTypes_from (cu : option User) (txs : list Transaction)
      (acc : TypeTotals) :
  fold_left (transactionTypesStep cu) txs acc
  = {| Income := Income acc + sumAbs (filter (isIncomingTransaction cu) txs);
       Expense := Expense acc
                  + sumAbs (filter (fun tx => negb (isIncomingTransaction cu tx)) txs) |}.
Proof.
  revert acc. induction txs as [| tx txs IH]; intros [i e]; simpl.
  - unfold sumAbs. simpl. f_equal; lia.
  - rewrite IH. unfold transactionTypesStep.
    destruct (isIncomingTransaction cu tx); simpl;
      rewrite orZero_id, ?sumAbs_cons; f_equal; lia.
Qed.

(** C3, amended. For every current user and every list of transactions
    with integer amounts whose absolute values add up to at most 2^53, the
    income total plus the expense total of [transactionTypes] is the total
    volume of [transactionStats], the sum of the absolute amounts; the
    income total is the sum over the incoming transactions, the expense
    total the sum over the others, and neither is negative or above 2^53,
    so that their sum is taken without rounding as well. *)
Theorem income_expense_partition_volume :
  forall (cu : option User) (txs : list Transaction),
    exactVolume txs ->
    Income (transactionTypes cu txs) + Expense (transactionTypes cu txs)
    = totalVolume (transactionStats txs)
    /\ totalVolume (transactionStats txs) = sumAbs txs
    /\ Income (transactionTypes cu txs)
       = sumAbs (filter (isIncomingTransaction cu) txs)
    /\ Expense (transactionTypes cu txs)
       = sumAbs (filter (fun tx => negb (isIncomingTransaction cu tx)) txs)
    /\ 0 <= Income (transactionTypes cu txs)
    /\ 0 <= Expense (transactionTypes cu txs)
    /\ Income (transactionTypes cu txs) <= maxExact
    /\ Expense (transactionTypes cu txs) <= maxExact.
Proof.
  intros cu txs Hexact. unfold exactVolume in Hexact.
  pose proof (sumAbs_partition (isIncomingTransaction cu) txs) as P.
  pose proof (sumAbs_nonneg (filter (isIncomingTransaction cu) txs)) as Pi.
  pose proof (sumAbs_nonneg
                (filter (fun tx => negb (isIncomingTransaction cu tx)) txs)) as Pe.
  unfold transactionTypes. rewrite transactionTypes_from.
  cbn [Income Expense totalVolume transactionStats Z.add].
  repeat match goal with |- _ /\ _ => split end;
    try reflexivity; try assumption; lia.
Qed.

(** ** Summary statistics *)

Lemma averageAmount_defined (txs : list Transaction) :
  exists a, averageAmount (transactionStats txs) = Some a.
Proof.
  unfold transactionStats. simpl.
  destruct (Z.ltb_spec 0 (Z.of_nat (List.length txs))) as [Hpos | _];
    [| now exists 0].
  unfold roundDiv. destruct (Z.eqb_spec (Z.of_nat (List.length txs)) 0); [lia |].
  eauto.
Qed.

(** C5. On the empty transaction list the summary statistics are count 0,
    volume 0, average 0, maximum 0 and minimum 0, each a finite number; and
    on every list the average is a finite number: the division is reached
    only with a positive count. *)
Theorem transactionStats_empty :
  transactionStats [] = mkStats 0 0 (Some 0) (Some 0) (Some 0)
  /\ forall txs : list Transaction,
       averageAmount (transactionStats txs) <> None
       /\ largestTransaction (transactionStats txs) <> None
       /\ smallestTransaction (transactionStats txs) <> None.
Proof.
  split; [reflexivity |].
  intros txs. split.
  - destruct (averageAmount_defined txs) as [a ->]. discriminate.
  - unfold transactionStats. simpl. destruct txs; simpl; split; discriminate.
Qed.

(** ** Data loader: the stored credential *)

(** C7. A load that fails as unauthorized (status 401) shows the
    unauthorized message and removes the stored credential; a load that
    fails in any other way leaves the stored credential as it was; a load
    that succeeds stores the credential it was given. *)
Theorem fetchData_credential :
  forall (authToken : string) (o : FetchOutcome) (st : AppState),
    (isUnauthorized o = true ->
     error (fetchData authToken o st) = Some unauthorizedMessage
     /\ localStorage (fetchData authToken o st) = None)
    /\ (isFailure o = true -> isUnauthorized o = false ->
        localStorage (fetchData authToken o st) = localStorage st)
    /\ (isFailure o = false ->
        localStorage (fetchData authToken o st) = Some authToken).
Proof.
  intros authToken o st. destruct o as [txs accts u | e |]; simpl.
  - repeat split; discriminate.
  - unfold onAxiosError.
    destruct (statusIs e 401); simpl; [repeat split; discriminate |].
    destruct (statusIs e 404), (codeIs e "ECONNREFUSED"); simpl;
      repeat split; discriminate || reflexivity.
  - repeat split; discriminate.
Qed.

(** ** Table sorter *)

(** C9. Selecting the active field keeps the field and flips the direction
    between ascending and descending; selecting another field makes that
    field active with the ascending direction. *)
Theorem handleSort_flips_or_selects :
  forall (field f : SortField) (o : SortOrder),
    handleSort f (f, asc) = (f, desc)
    /\ handleSort f (f, desc) = (f, asc)
    /\ (field <> f -> handleSort field (f, o) = (field, asc)).
Proof.
  intros field f o. repeat split.
  - now destruct f.
  - now destruct f.
  - intros Hne. destruct field, f; try reflexivity; congruence.
Qed.

Lemma tableCompare_antisymmetric (f : SortField) (o : SortOrder) :
  antisymmetric localeCompare -> antisymmetric (tableCompare f o).
Proof.
  intros Hc a b. unfold tableCompare.
  destruct f, o; simpl;
    try (pose proof (Hc (name (user (from a))) (name (user (from b)))));
    try (pose proof (Hc (name (user (to a))) (name (user (to b)))));
    lia.
Qed.

Lemma sortedTransactions_idempotent (f : SortField) (o : SortOrder)
      (txs : list Transaction) :
  antisymmetric localeCompare ->
  sortedTransactions f o (sortedTransactions f o txs)
  = sortedTransactions f o txs.
Proof.
  intros Hc. unfold sortedTransactions.
  apply arraySort_id, arraySort_sorted, tableCompare_antisymmetric, Hc.
Qed.

Lemma handleSort_twice (f : SortField) (o : SortOrder) :
  handleSort f (handleSort f (f, o)) = (f, o).
Proof. now destruct f, o. Qed.

Lemma render_table (st : AppState) :
  r_sortedTransactions (render st)
  = sortedTransactions (sortField st) (sortOrder st)
                       (arraySort byDateAsc (transactions st)).
Proof. reflexivity. Qed.

(** What a render leaves in the [transactions] array. *)
Lemma render_transactions (st : AppState) :
  r_transactions (render st) = arraySort byDateDesc (transactions st).
Proof. unfold render. simpl. apply sortDesc_after_sortAsc. Qed.

(** C8. With a [localeCompare] that never contradicts itself, sorting the
    table twice by the same field and direction gives the order of sorting
    it once; two selections of the active field restore the sort state;
    and the table rendered after these two selections is the table
    rendered before them. *)
Theorem sortedTransactions_idempotent_and_toggle :
  antisymmetric localeCompare ->
  forall (st : AppState) (f : SortField) (o : SortOrder) (txs : list Transaction),
    sortedTransactions f o (sortedTransactions f o txs)
    = sortedTransactions f o txs
    /\ handleSort f (handleSort f (f, o)) = (f, o)
    /\ r_sortedTransactions
         (render (clickHeader (sortField st)
                    (afterRender (clickHeader (sortField st) (afterRender st)))))
       = r_sortedTransactions (render st).
Proof.
  intros Hc st f o txs. split; [| split].
  - now apply sortedTransactions_idempotent.
  - apply handleSort_twice.
  - rewrite !render_table.
    destruct st as [T ac lo il er tk au sf so cu ls].
    unfold clickHeader, afterRender. simpl.
    rewrite !sortDesc_after_sortAsc, !sortAsc_after_sortDesc.
    now destruct sf, so.
Qed.

(** ** Positions and first occurrences *)

Lemma findIndex_app {A : Type} (p : A -> bool) (l1 l2 : list A) :
  findIndex p (l1 ++ l2)
  = match findIndex p l1 with
    | Some i => Some i
    | None => option_map (Nat.add (List.length l1)) (findIndex p l2)
    end.
Proof.
  induction l1 as [| x l1 IH]; simpl.
  - now destruct (findIndex p l2).
  - destruct (p x); [reflexivity |]. rewrite IH.
    destruct (findIndex p l1); simpl; [reflexivity |].
    now destruct (findIndex p l2).
Qed.

Lemma findIndex_None {A : Type} (p : A -> bool) (l : list A) :
  findIndex p l = None <-> forall x, In x l -> p x = false.
Proof.
  induction l as [| y l IH]; simpl.
  - split; [intros _ x [] | reflexivity].
  - destruct (p y) eqn:E.
    + split; [discriminate |]. intros H.
      rewrite (H y) in E by (simpl; auto). discriminate.
    + destruct (findIndex p l) eqn:F; simpl.
      * split; [discriminate |]. intros H.
        assert (G : Some n = None) by (apply IH; intros x Hx; apply H; auto).
        discriminate.
      * split; [| reflexivity]. intros _ x [<- | Hx]; [exact E |].
        now apply IH.
Qed.

Lemma findIndex_Some_lt {A : Type} (p : A -> bool) (l : list A) (i : nat) :
  findIndex p l = Some i -> (i < List.length l)%nat.
Proof.
  revert i. induction l as [| y l IH]; simpl; intros i; [discriminate |].
  destruct (p y); [intros [= <-]; lia |].
  destruct (findIndex p l); simpl; [| discriminate].
  intros [= <-]. specialize (IH _ eq_refl). lia.
Qed.

Lemma existsb_eqb_In (k : string) (l : list string) :
  existsb (String.eqb k) l = true <-> In k l.
Proof.
  rewrite existsb_exists. split.
  - intros [x [Hx E]]. apply String.eqb_eq in E. now subst.
  - intros H. exists k. split; [exact H | apply String.eqb_refl].
Qed.

Lemma firstIndexOf_In (k : string) (l l' : list string) :
  In k l ->
  firstIndexOf k (l ++ l') = firstIndexOf k l
  /\ (firstIndexOf k l < List.length l)%nat.
Proof.
  intros Hk. unfold firstIndexOf. rewrite findIndex_app.
  destruct (findIndex (String.eqb k) l) as [i |] eqn:E.
  - split; [reflexivity | now apply findIndex_Some_lt in E].
  - rewrite findIndex_None in E. specialize (E k Hk).
    now rewrite String.eqb_refl in E.
Qed.

Lemma firstIndexOf_fresh (k : string) (l : list string) :
  ~ In k l -> firstIndexOf k (l ++ [k]) = List.length l.
Proof.
  intros Hk. unfold firstIndexOf. rewrite findIndex_app.
  destruct (findIndex (String.eqb k) l) as [i |] eqn:E.
  - exfalso. apply Hk. apply existsb_eqb_In.
    destruct (existsb (String.eqb k) l) eqn:X; [reflexivity |].
    assert (F : findIndex (String.eqb k) l = None).
    { apply findIndex_None. intros x Hx.
      rewrite <- not_true_iff_false in X. rewrite existsb_exists in X.
      destruct (String.eqb k x) eqn:Y; [| reflexivity].
      exfalso. apply X. eauto. }
    congruence.
  - simpl. rewrite String.eqb_refl. simpl. lia.
Qed.

Lemma firstSeen_snoc (l : list string) (k : string) :
  firstSeen (l ++ [k])
  = if existsb (String.eqb k) (firstSeen l)
    then firstSeen l else firstSeen l ++ [k].
Proof. unfold firstSeen. now rewrite fold_left_app. Qed.

Lemma firstSeen_In (l : list string) (k : string) :
  In k (firstSeen l) <-> In k l.
Proof.
  revert k. induction l as [| x l IH] using rev_ind; intros k; [reflexivity |].
  rewrite firstSeen_snoc, in_app_iff.
  destruct (existsb (String.eqb x) (firstSeen l)) eqn:E.
  - rewrite IH. apply existsb_eqb_In in E. apply IH in E.
    simpl. split; [auto | intros [H | [<- | []]]; auto].
  - rewrite in_app_iff, IH. reflexivity.
Qed.

Lemma firstSeen_NoDup (l : list string) : NoDup (firstSeen l).
Proof.
  induction l as [| x l IH] using rev_ind; [constructor |].
  rewrite firstSeen_snoc.
  destruct (existsb (String.eqb x) (firstSeen l)) eqn:E; [exact IH |].
  apply NoDup_app; [exact IH | repeat constructor; intros [] |].
  intros y Hy [<- | []].
  apply existsb_eqb_In in Hy. congruence.
Qed.

(** The order of [firstSeen] is the order of first occurrences. *)
Lemma firstSeen_before (l : list string) (x y : string) :
  before x y (firstSeen l) -> (firstIndexOf x l < firstIndexOf y l)%nat.
Proof.
  induction l as [| z l IH] using rev_ind; [intros H; inversion H |].
  rewrite firstSeen_snoc.
  assert (Keep : before x y (firstSeen l) ->
                 (firstIndexOf x (l ++ [z]) < firstIndexOf y (l ++ [z]))%nat).
  { intros H. pose proof (IH H) as Hlt.
    apply before_In in H as [Hx Hy].
    rewrite firstSeen_In in Hx, Hy.
    destruct (firstIndexOf_In x l [z] Hx) as [-> _].
    destruct (firstIndexOf_In y l [z] Hy) as [-> _]. exact Hlt. }
  destruct (existsb (String.eqb z) (firstSeen l)) eqn:E; [exact Keep |].
  intros H. apply before_app in H as [H | [H | [Hx [<- | []]]]].
  - now apply Keep.
  - inversion H as [? Hy | ? ? Hy]; subst; [destruct Hy | inversion Hy].
  - rewrite firstSeen_In in Hx.
    destruct (firstIndexOf_In x l [z] Hx) as [-> Hlt].
    rewrite firstIndexOf_fresh; [exact Hlt |].
    intros Hy. rewrite <- firstSeen_In, <- existsb_eqb_In in Hy. congruence.
Qed.

(** ** Top counterparties: what the accumulator holds *)

Lemma sumAbs_app (l1 l2 : list Transaction) :
  sumAbs (l1 ++ l2) = sumAbs l1 + sumAbs l2.
Proof.
  induction l1 as [| tx l1 IH]; simpl.
  - change (sumAbs []) with 0. lia.
  - rewrite !sumAbs_cons, IH. lia.
Qed.

Lemma sumAbs_filter_snoc (p : Transaction -> bool) (l : list Transaction)
      (tx : Transaction) :
  sumAbs (filter p (l ++ [tx]))
  = sumAbs (filter p l) + (if p tx then Z.abs (amount tx) else 0).
Proof.
  rewrite filter_app, sumAbs_app. simpl.
  destruct (p tx); [rewrite sumAbs_cons |]; change (sumAbs []) with 0; lia.
Qed.

Lemma sumAbs_filter_none (p : Transaction -> bool) (l : list Transaction) :
  (forall tx, In tx l -> p tx = false) -> sumAbs (filter p l) = 0.
Proof.
  induction l as [| tx l IH]; intros H; simpl; [reflexivity |].
  rewrite (H tx) by (simpl; auto). apply IH. intros. apply H. simpl. auto.
Qed.

Lemma partnerEntry_other (cu : option User) (txs : list Transaction)
      (tx : Transaction) (k : string) :
  partnerNameOf cu tx <> k ->
  partnerEntry cu (txs ++ [tx]) k = partnerEntry cu txs k.
Proof.
  intros Hne. unfold partnerEntry, incomingFrom, outgoingTo.
  rewrite !sumAbs_filter_snoc.
  apply String.eqb_neq in Hne. rewrite Hne, !andb_false_r.
  do 2 f_equal; lia.
Qed.

Lemma partnerEntry_same (cu : option User) (txs : list Transaction)
      (tx : Transaction) :
  partnerEntry cu (txs ++ [tx]) (partnerNameOf cu tx)
  = (partnerNameOf cu tx,
     (if isIncomingTransaction cu tx
      then addIncoming (Z.abs (amount tx)) else addOutgoing (Z.abs (amount tx)))
       (snd (partnerEntry cu txs (partnerNameOf cu tx)))).
Proof.
  unfold partnerEntry, incomingFrom, outgoingTo.
  rewrite !sumAbs_filter_snoc, String.eqb_refl, !andb_true_r.
  destruct (isIncomingTransaction cu tx); simpl;
    unfold addIncoming, addOutgoing; simpl; do 2 f_equal; lia.
Qed.

Lemma getOwn_entries (cu : option User) (txs : list Transaction)
      (keys : list string) (k : string) :
  getOwn k (map (partnerEntry cu txs) keys)
  = if existsb (String.eqb k) keys
    then Some (snd (partnerEntry cu txs k)) else None.
Proof.
  unfold getOwn. induction keys as [| k' keys IH]; simpl; [reflexivity |].
  rewrite (String.eqb_sym k k').
  destruct (String.eqb_spec k' k) as [-> | Hne]; simpl; [reflexivity |].
  exact IH.
Qed.

Lemma ownNames_snoc (cu : option User) (txs : list Transaction) (tx : Transaction) :
  ownNames cu (txs ++ [tx])
  = if inheritedKey (partnerNameOf cu tx) then ownNames cu txs
    else if existsb (String.eqb (partnerNameOf cu tx)) (ownNames cu txs)
         then ownNames cu txs
         else ownNames cu txs ++ [partnerNameOf cu tx].
Proof.
  unfold ownNames. rewrite map_app, filter_app. simpl.
  destruct (inheritedKey (partnerNameOf cu tx)); simpl.
  - now rewrite app_nil_r.
  - apply firstSeen_snoc.
Qed.

Lemma ownNames_In (cu : option User) (txs : list Transaction) (k : string) :
  In k (ownNames cu txs)
  <-> In k (map (partnerNameOf cu) txs) /\ inheritedKey k = false.
Proof.
  unfold ownNames. rewrite firstSeen_In, filter_In, negb_true_iff.
  reflexivity.
Qed.

Lemma partnerEntry_absent (cu : option User) (txs : list Transaction) (k : string) :
  ~ In k (map (partnerNameOf cu) txs) ->
  partnerEntry cu txs k = (k, mkPartner k 0 0).
Proof.
  intros Hk. unfold partnerEntry, incomingFrom, outgoingTo.
  rewrite !sumAbs_filter_none; [reflexivity | |];
    intros tx Htx; (destruct (String.eqb_spec (partnerNameOf cu tx) k) as [E | _];
                    [| apply andb_false_r]);
    exfalso; apply Hk; rewrite <- E; now apply in_map.
Qed.

(** The accumulator after the reduce: one entry for each counterparty name
    that is not a member of [Object.prototype], in the order of first
    occurrence, holding the two sums of that name. *)
Lemma topPartners_entries (cu : option User) (txs : list Transaction) :
  topPartners cu txs = map (partnerEntry cu txs) (ownNames cu txs).
Proof.
  induction txs as [| tx txs IH] using rev_ind; [reflexivity |].
  unfold topPartners in *. rewrite fold_left_app. simpl. rewrite IH.
  unfold topPartnersStep. rewrite getOwn_entries, ownNames_snoc.
  destruct (existsb (String.eqb (partnerNameOf cu tx)) (ownNames cu txs)) eqn:E.
  - assert (I : inheritedKey (partnerNameOf cu tx) = false).
    { apply existsb_eqb_In, ownNames_In in E. apply E. }
    rewrite I. unfold modifyOwn. rewrite map_map.
    apply map_ext_in. intros k Hk. simpl.
    destruct (String.eqb_spec k (partnerNameOf cu tx)) as [-> | Hne].
    + now rewrite partnerEntry_same.
    + rewrite partnerEntry_other; [reflexivity | congruence].
  - assert (Others : forall k, In k (ownNames cu txs) ->
                               partnerNameOf cu tx <> k).
    { intros k Hk <-. apply existsb_eqb_In in Hk. congruence. }
    destruct (inheritedKey (partnerNameOf cu tx)) eqn:I.
    + apply map_ext_in. intros k Hk.
      symmetry. apply partnerEntry_other. now apply Others.
    + unfold defineOwn, modifyOwn. rewrite !map_app, map_map. f_equal.
      * apply map_ext_in. intros k Hk. simpl.
        destruct (String.eqb_spec k (partnerNameOf cu tx)) as [-> | Hne].
        -- exfalso. now apply (Others _ Hk).
        -- symmetry. apply partnerEntry_other. now apply Others.
      * simpl. rewrite String.eqb_refl, partnerEntry_same.
        rewrite partnerEntry_absent; [reflexivity |].
        intros Hin. rewrite <- not_true_iff_false in E. apply E.
        apply existsb_eqb_In, ownNames_In. auto.
Qed.

(** ** Top counterparties: the chart entries *)

Lemma ownEntries_In {V : Type} (o : JsObject V) (kv : string * V) :
  In kv (ownEntries o) <-> In kv o.
Proof.
  unfold ownEntries. rewrite in_app_iff, arraySort_In, !filter_In.
  destruct (isArrayIndex (fst kv)); simpl;
    (split; [intros [[H _] | [H _]]; exact H
            | intros H; (left; now split) || (right; now split)]).
Qed.

Lemma In_firstn {A : Type} (n : nat) (l : list A) (x : A) :
  In x (firstn n l) -> In x l.
Proof.
  intros H. rewrite <- (firstn_skipn n l). apply in_or_app. auto.
Qed.

Lemma topPartnersData_In (cu : option User) (txs : list Transaction)
      (e : PartnerTotal) :
  In e (topPartnersData cu txs) ->
  exists k, In k (ownNames cu txs) /\ e = partnerTotalOf cu txs k.
Proof.
  unfold topPartnersData, objectValues. intros H.
  apply In_firstn, arraySort_In, in_map_iff in H as [p [<- H]].
  apply in_map_iff in H as [kv [<- H]].
  rewrite ownEntries_In, topPartners_entries in H.
  apply in_map_iff in H as [k [<- H]]. eauto.
Qed.

Lemma byTotalDesc_sorted (l : list PartnerTotal) (a b : PartnerTotal) :
  before a b (arraySort byTotalDesc l) -> pt_total b <= pt_total a.
Proof.
  rewrite (arraySort_ext byTotalDesc (byKey (fun e => - pt_total e)))
    by (unfold byTotalDesc, byKey; intros; lia).
  pose proof (arraySort_byKey_sorted (fun e => - pt_total e) l) as S.
  induction S as [| x s Hs IH Hx]; intros H; [inversion H |].
  apply before_cons in H as [[-> Hb] | H]; [| now apply IH].
  rewrite Forall_forall in Hx. apply Hx in Hb.
  unfold ordered, byKey in Hb. lia.
Qed.

(** ** Steps of the balance curve *)

Lemma findIndex_Some {A : Type} (p : A -> bool) (l : list A) (i : nat) :
  findIndex p l = Some i ->
  exists x, nth_error l i = Some x /\ p x = true.
Proof.
  revert i. induction l as [| y l IH]; simpl; intros i; [discriminate |].
  destruct (p y) eqn:E; [intros [= <-]; simpl; eauto |].
  destruct (findIndex p l); simpl; [| discriminate].
  intros [= <-]. simpl. now apply IH.
Qed.

Lemma updateAt_In {A : Type} (f : A -> A) (l : list A) (i : nat) (x : A) :
  nth_error l i = Some x -> In (f x) (updateAt i f l).
Proof.
  revert i. induction l as [| y l IH]; intros [| i]; simpl; try discriminate.
  - intros [= ->]. auto.
  - intros H. right. now apply IH.
Qed.

Lemma balanceStep_touches (cu : option User) (acc : list BalancePoint)
      (tx : Transaction) :
  exists p, In p (balanceStep cu acc tx)
            /\ bp_date p = csDate (createdAt tx)
            /\ bp_balance p = lastBalanceOf acc + forwardAmount cu tx.
Proof.
  unfold balanceStep.
  destruct (findIndex _ acc) as [i |] eqn:F.
  - apply findIndex_Some in F as [x [Hx E]]. apply String.eqb_eq in E.
    exists (setBalance (lastBalanceOf acc + forwardAmount cu tx) x).
    split; [now apply updateAt_In | auto].
  - eexists. split; [apply in_or_app; right; left; reflexivity | auto].
Qed.

(** ** Date buckets of the two balance curves *)

Lemma StronglySorted_before {A : Type} (R : A -> A -> Prop) (l : list A) (a b : A) :
  StronglySorted R l -> before a b l -> R a b.
Proof.
  induction 1 as [| x l Hs IH Hx]; intros H; [inversion H |].
  apply before_cons in H as [[-> Hb] | H]; [| now apply IH].
  rewrite Forall_forall in Hx. now apply Hx.
Qed.

Lemma before_split {A : Type} (l1 l2 l3 : list A) (a b : A) :
  before a b (l1 ++ a :: l2 ++ b :: l3).
Proof.
  apply before_app. right. left. constructor.
  apply in_or_app. right. simpl. auto.
Qed.

Ltac reassoc := repeat (rewrite <- app_assoc; simpl); try reflexivity.

Lemma grouped_prefix (l : list Transaction) (x : Transaction) :
  grouped (l ++ [x]) -> grouped l.
Proof.
  intros G l1 a l2 b l3 E. apply (G l1 a l2 b (l3 ++ [x])).
  rewrite E. reassoc.
Qed.

Lemma grouped_last (l : list Transaction) (t x a : Transaction) :
  grouped ((l ++ [t]) ++ [x]) -> In a (l ++ [t]) -> dateOf a = dateOf x ->
  dateOf t = dateOf x.
Proof.
  intros G Ha E. apply in_app_or in Ha as [Ha | [<- | []]]; [| exact E].
  apply in_split in Ha as [l1 [l2 ->]].
  rewrite <- E. apply (G l1 a (l2 ++ [t]) x []); [| exact E |].
  - reassoc.
  - apply in_or_app. simpl. auto.
Qed.

(** A time-sorted arrangement of transactions whose dates are adjacent in
    time keeps each date together, in either direction. *)
Lemma sorted_grouped (key : Transaction -> Z) (txs l : list Transaction) :
  (forall a b, key a <= key b -> timeOf a <= timeOf b)
  \/ (forall a b, key a <= key b -> timeOf b <= timeOf a) ->
  sameDatesAdjacent txs ->
  (forall x, In x l -> In x txs) ->
  StronglySorted (ordered (byKey key)) l ->
  grouped l.
Proof.
  intros Hk Hadj Hin Hs l1 a l2 b l3 -> E c Hc.
  assert (Hac : key a <= key c).
  { apply in_split in Hc as [m1 [m2 ->]].
    assert (B : before a c (l1 ++ a :: (m1 ++ c :: m2) ++ b :: l3)).
    { reassoc. apply before_split. }
    apply (StronglySorted_before _ _ _ _ Hs) in B.
    unfold ordered, byKey in B. lia. }
  assert (Hcb : key c <= key b).
  { apply in_split in Hc as [m1 [m2 ->]].
    assert (B : before c b (l1 ++ a :: (m1 ++ c :: m2) ++ b :: l3)).
    { reassoc.
      change (l1 ++ a :: m1 ++ c :: m2 ++ b :: l3)
        with (l1 ++ (a :: m1) ++ c :: m2 ++ b :: l3).
      rewrite app_assoc. apply before_split. }
    apply (StronglySorted_before _ _ _ _ Hs) in B.
    unfold ordered, byKey in B. lia. }
  assert (Ia : In a txs) by (apply Hin, in_or_app; simpl; auto).
  assert (Ic : In c txs).
  { apply Hin, in_or_app. right. right. apply in_or_app. auto. }
  assert (Ib : In b txs).
  { apply Hin, in_or_app. right. right. apply in_or_app. simpl. auto. }
  destruct Hk as [Hk | Hk].
  - apply (Hadj a c b); auto.
  - rewrite E. apply (Hadj b c a); auto.
Qed.

Lemma lastElement_snoc {A : Type} (l : list A) (x : A) :
  lastElement (l ++ [x]) = Some x.
Proof. unfold lastElement. now rewrite rev_app_distr. Qed.

Lemma updateAt_last {A : Type} (f : A -> A) (l : list A) (x : A) :
  updateAt (List.length l) f (l ++ [x]) = l ++ [f x].
Proof. induction l as [| y l IH]; simpl; [reflexivity | now rewrite IH]. Qed.

Lemma netAmount_app (cu : option User) (l1 l2 : list Transaction) :
  netAmount cu (l1 ++ l2) = netAmount cu l1 + netAmount cu l2.
Proof.
  induction l1 as [| tx l1 IH]; simpl; [reflexivity | rewrite IH; lia].
Qed.

Lemma netAmount_perm (cu : option User) (l1 l2 : list Transaction) :
  Permutation l1 l2 -> netAmount cu l1 = netAmount cu l2.
Proof. induction 1; simpl; lia. Qed.


(** The dates of the buckets are the distinct date labels, in the order in
    which the reduce meets them: one bucket per date. *)
Lemma balanceStep_dates (cu : option User) (acc : list BalancePoint)
      (tx : Transaction) :
  map bp_date (balanceStep cu acc tx)
  = if existsb (String.eqb (dateOf tx)) (map bp_date acc)
    then map bp_date acc else map bp_date acc ++ [dateOf tx].
Proof.
  unfold balanceStep, dateOf.
  destruct (findIndex _ acc) as [i |] eqn:F.
  - assert (K : forall (b : Z) (j : nat) (l : list BalancePoint),
               map bp_date (updateAt j (setBalance b) l) = map bp_date l).
    { intros b j l. revert j.
      induction l as [| y l IH]; intros [| j]; simpl; try reflexivity.
      now rewrite IH. }
    rewrite K. apply findIndex_Some in F as [x [Hx E]].
    apply nth_error_In in Hx. apply String.eqb_eq in E.
    assert (X : existsb (String.eqb (csDate (createdAt tx))) (map bp_date acc) = true).
    { apply existsb_eqb_In. rewrite <- E. now apply in_map. }
    now rewrite X.
  - assert (X : existsb (String.eqb (csDate (createdAt tx))) (map bp_date acc) = false).
    { apply not_true_iff_false. intros X. apply existsb_eqb_In in X.
      apply in_map_iff in X as [x [E Hx]].
      rewrite findIndex_None in F. specialize (F x Hx). simpl in F.
      rewrite E, String.eqb_refl in F. discriminate. }
    rewrite X, map_app. reflexivity.
Qed.

Lemma balanceData_dates (cu : option User) (l : list Transaction) :
  map bp_date (fold_left (balanceStep cu) l []) = firstSeen (map dateOf l).
Proof.
  induction l as [| x l IH] using rev_ind; [reflexivity |].
  rewrite fold_left_app, map_app. simpl.
  now rewrite firstSeen_snoc, balanceStep_dates, IH.
Qed.

Lemma findIndex_unique_last (acc : list BalancePoint) (p : BalancePoint) (d : string) :
  NoDup (map bp_date (acc ++ [p])) -> bp_date p = d ->
  findIndex (fun item => String.eqb (bp_date item) d) (acc ++ [p])
  = Some (List.length acc).
Proof.
  intros N E. rewrite findIndex_app.
  assert (F : findIndex (fun item => String.eqb (bp_date item) d) acc = None).
  { apply findIndex_None. intros x Hx. apply String.eqb_neq. intros Hd.
    rewrite map_app in N. simpl in N. apply NoDup_remove_2 in N.
    apply N. rewrite app_nil_r, E, <- Hd. now apply in_map. }
  rewrite F. simpl. rewrite E, String.eqb_refl. simpl. f_equal. lia.
Qed.

(** Forward accumulation over an array that keeps each date together: the
    last bucket is the date of the last transaction and holds the net
    amount of the whole array. *)
Lemma balance_last_bucket (cu : option User) (l : list Transaction) (t : Transaction) :
  grouped (l ++ [t]) ->
  exists acc p,
    fold_left (balanceStep cu) (l ++ [t]) [] = acc ++ [p]
    /\ bp_date p = dateOf t
    /\ bp_balance p = netAmount cu (l ++ [t]).
Proof.
  revert t. induction l as [| t0 l IH] using rev_ind; intros t G.
  - exists [], (mkBalancePoint (dateOf t) (0 + forwardAmount cu t) (forwardAmount cu t)).
    simpl. repeat split. lia.
  - destruct (IH t0 (grouped_prefix _ _ G)) as [acc [p [Eacc [Hd Hb]]]].
    pose proof (balanceData_dates cu (l ++ [t0])) as D.
    rewrite fold_left_app. simpl. rewrite Eacc in *.
    assert (L : lastBalanceOf (acc ++ [p]) = netAmount cu (l ++ [t0])).
    { unfold lastBalanceOf. now rewrite lastElement_snoc. }
    rewrite (netAmount_app cu (l ++ [t0]) [t]). simpl.
    unfold balanceStep. rewrite L.
    destruct (findIndex _ (acc ++ [p])) as [i |] eqn:F.
    + assert (Ht : dateOf t0 = dateOf t).
      { apply findIndex_Some in F as [x [Hx E]].
        apply nth_error_In in Hx. apply String.eqb_eq in E.
        assert (Hin : In (dateOf t) (map dateOf (l ++ [t0]))).
        { apply firstSeen_In. rewrite <- D. unfold dateOf. rewrite <- E.
          now apply in_map. }
        apply in_map_iff in Hin as [a [Ea Ha]].
        now apply (grouped_last l t0 t a). }
      rewrite findIndex_unique_last in F.
      * injection F as <-. rewrite updateAt_last.
        exists acc. eexists. split; [reflexivity |]. simpl.
        split; [congruence | lia].
      * rewrite D. apply firstSeen_NoDup.
      * unfold dateOf in *. congruence.
    + exists (acc ++ [p]). eexists. split; [reflexivity |]. simpl.
      split; [reflexivity | lia].
Qed.



(** ** Renders and the table, beyond the claims *)

(** X7. A render reorders the state array newest first without losing or
    duplicating a transaction, and rendering again over the reordered array
    shows the same views, all eight of them, and leaves the array as it is:
    in both renders the transforms between the two in-place sorts, the
    monthly and the daily chart among them, work on the same oldest-first
    array. *)
Theorem render_again_same_views :
  forall st : AppState,
    renderViews (afterRender st) = renderViews st
    /\ snd (balanceData (currentUser (afterRender st)) (transactions (afterRender st)))
       = snd (balanceData (currentUser st) (transactions st))
    /\ render (afterRender st) = render st
    /\ transactions (afterRender (afterRender st)) = transactions (afterRender st)
    /\ Permutation (transactions (afterRender st)) (transactions st)
    /\ (forall a b, before a b (transactions (afterRender st)) ->
                    timeOf b <= timeOf a).
Proof.
  intros st.
  assert (A : snd (balanceData (currentUser (afterRender st))
                               (transactions (afterRender st)))
              = snd (balanceData (currentUser st) (transactions st))).
  { unfold afterRender. cbn [transactions currentUser].
    rewrite render_transactions. unfold balanceData. cbn [snd].
    apply sortAsc_after_sortDesc. }
  assert (R : render (afterRender st) = render st).
  { unfold afterRender. rewrite render_transactions.
    unfold render, balanceData, runningBalanceData. simpl.
    now rewrite !sortAsc_after_sortDesc. }
  split; [| split; [exact A |]].
  - unfold renderViews. rewrite A, R. reflexivity.
  - split; [exact R |]. split; [| split].
    + unfold afterRender at 1. cbn [transactions]. rewrite R. reflexivity.
    + unfold afterRender. cbn [transactions]. rewrite render_transactions.
      apply arraySort_perm.
    + intros a b H. unfold afterRender in H. cbn [transactions] in H.
      rewrite render_transactions, byDateDesc_byKey in H.
      apply (StronglySorted_before _ _ _ _
               (arraySort_byKey_sorted (fun tx => - timeOf tx) _)) in H.
      unfold ordered, byKey in H. lia.
Qed.

Lemma arraySort_byKey_before {A : Type} (cmp : A -> A -> Z) (key : A -> Z)
      (l : list A) (a b : A) :
  (forall x y, cmp x y = key x - key y) ->
  before a b (arraySort cmp l) -> key a <= key b.
Proof.
  intros E H. rewrite (arraySort_ext cmp (byKey key)) in H by exact E.
  apply (StronglySorted_before _ _ _ _ (arraySort_byKey_sorted key l)) in H.
  unfold ordered, byKey in H. lia.
Qed.

(** X8. The table holds the transactions of the array, each once. Rows
    that follow each other are in the order of the chosen field and
    direction, and a row stands behind another one against the order of the
    array only when the comparator puts it strictly behind: rows that compare
    equal keep the order of the array. By date and by amount the whole table
    is ordered: ascending never decreases, descending never increases. *)
Theorem sortedTransactions_sorted_stable :
  antisymmetric localeCompare ->
  forall (f : SortField) (o : SortOrder) (txs : list Transaction),
    Permutation (sortedTransactions f o txs) txs
    /\ Sorted (ordered (tableCompare f o)) (sortedTransactions f o txs)
    /\ (forall a b, before a b (sortedTransactions f o txs) ->
                    before a b txs \/ 0 < tableCompare f o b a)
    /\ (forall a b, before a b (sortedTransactions date_field asc txs) ->
                    timeOf a <= timeOf b)
    /\ (forall a b, before a b (sortedTransactions date_field desc txs) ->
                    timeOf b <= timeOf a)
    /\ (forall a b, before a b (sortedTransactions amount_field asc txs) ->
                    amount a <= amount b)
    /\ (forall a b, before a b (sortedTransactions amount_field desc txs) ->
                    amount b <= amount a).
Proof.
  intros Hc f o txs. unfold sortedTransactions.
  split; [apply arraySort_perm |].
  split; [apply arraySort_sorted, tableCompare_antisymmetric, Hc |].
  split; [intros a b; apply before_arraySort |].
  repeat split; intros a b H.
  - apply (arraySort_byKey_before _ timeOf) in H; [exact H |].
    intros x y. unfold tableCompare, timeOf. simpl. lia.
  - apply (arraySort_byKey_before _ (fun tx => - timeOf tx)) in H; [lia |].
    intros x y. unfold tableCompare, timeOf. simpl. lia.
  - apply (arraySort_byKey_before _ amount) in H; [exact H |].
    intros x y. unfold tableCompare. simpl. lia.
  - apply (arraySort_byKey_before _ (fun tx => - amount tx)) in H; [lia |].
    intros x y. unfold tableCompare. simpl. lia.
Qed.

(** ** Summary statistics on a list that is not empty *)

Lemma fold_max_spec (xs : list Z) (x : Z) :
  x <= fold_left Z.max xs x
  /\ (forall y, In y xs -> y <= fold_left Z.max xs x)
  /\ In (fold_left Z.max xs x) (x :: xs).
Proof.
  revert x. induction xs as [| z xs IH]; intros x; simpl.
  - repeat split; [lia | intros y [] | auto].
  - destruct (IH (Z.max x z)) as [H1 [H2 H3]]. repeat split.
    + lia.
    + intros y [<- | Hy]; [lia | now apply H2].
    + destruct H3 as [H3 | H3]; [| auto].
      rewrite <- H3. destruct (Z.max_spec x z) as [[_ ->] | [_ ->]]; auto.
Qed.

Lemma fold_min_spec (xs : list Z) (x : Z) :
  fold_left Z.min xs x <= x
  /\ (forall y, In y xs -> fold_left Z.min xs x <= y)
  /\ In (fold_left Z.min xs x) (x :: xs).
Proof.
  revert x. induction xs as [| z xs IH]; intros x; simpl.
  - repeat split; [lia | intros y [] | auto].
  - destruct (IH (Z.min x z)) as [H1 [H2 H3]]. repeat split.
    + lia.
    + intros y [<- | Hy]; [lia | now apply H2].
    + destruct H3 as [H3 | H3]; [| auto].
      rewrite <- H3. destruct (Z.min_spec x z) as [[_ ->] | [_ ->]]; auto.
Qed.

Lemma sumAbs_between (txs : list Transaction) (lo hi : Z) :
  (forall tx, In tx txs -> lo <= Z.abs (amount tx) <= hi) ->
  lo * Z.of_nat (List.length txs) <= sumAbs txs <= hi * Z.of_nat (List.length txs).
Proof.
  induction txs as [| tx txs IH]; intros H.
  - change (sumAbs []) with 0. simpl. lia.
  - rewrite sumAbs_cons. cbn [List.length]. rewrite Nat2Z.inj_succ.
    assert (H1 := H tx (or_introl eq_refl)).
    assert (H2 : forall t, In t txs -> lo <= Z.abs (amount t) <= hi)
      by (intros; apply H; simpl; auto).
    specialize (IH H2). lia.
Qed.

(** X9. On a list that is not empty the smallest and the largest
    transaction are numbers: absolute amounts of the list that bound all of
    them. For integer amounts with 2 * volume + count below 2^53, where the
    rounded double quotient is the rounded mean, the average is a number
    between the smallest and the largest, it differs from the exact mean by
    at most one half, and it stays below 2^53. *)
Theorem transactionStats_bounds :
  forall txs : list Transaction,
    txs <> [] ->
    exists lo hi,
      smallestTransaction (transactionStats txs) = Some lo
      /\ largestTransaction (transactionStats txs) = Some hi
      /\ (forall tx, In tx txs -> lo <= Z.abs (amount tx) <= hi)
      /\ (exists tx, In tx txs /\ Z.abs (amount tx) = lo)
      /\ (exists tx, In tx txs /\ Z.abs (amount tx) = hi)
      /\ (exactAverage txs ->
          exists avg,
            averageAmount (transactionStats txs) = Some avg
            /\ lo <= avg <= hi
            /\ 2 * Z.abs (avg * totalTransactions (transactionStats txs)
                          - totalVolume (transactionStats txs))
               <= totalTransactions (transactionStats txs)
            /\ 0 <= avg < maxExact).
Proof.
  intros txs Hne. destruct txs as [| t txs]; [congruence |].
  unfold exactAverage, transactionStats.
  set (n := Z.of_nat (List.length (t :: txs))).
  assert (Hn : 0 < n) by (unfold n; cbn [List.length]; lia).
  cbn [smallestTransaction averageAmount largestTransaction
       totalTransactions totalVolume].
  apply Z.ltb_lt in Hn as Hb. rewrite Hb. apply Z.ltb_lt in Hb.
  unfold roundDiv. destruct (Z.eqb_spec n 0) as [E | _]; [lia |].
  cbn [map mathMax mathMin].
  set (rest := map (fun tx => Z.abs (amount tx)) txs).
  destruct (fold_max_spec rest (Z.abs (amount t))) as [M1 [M2 M3]].
  destruct (fold_min_spec rest (Z.abs (amount t))) as [m1 [m2 m3]].
  set (hi := fold_left Z.max rest (Z.abs (amount t))) in *.
  set (lo := fold_left Z.min rest (Z.abs (amount t))) in *.
  set (s := sumAbs (t :: txs)).
  assert (B : forall tx, In tx (t :: txs) -> lo <= Z.abs (amount tx) <= hi).
  { intros tx [<- | Hin]; [lia |].
    assert (I : In (Z.abs (amount tx)) rest)
      by (unfold rest; apply in_map_iff; exists tx; auto).
    split; [now apply m2 | now apply M2]. }
  assert (A : forall v, In v (Z.abs (amount t) :: rest) ->
                        exists tx, In tx (t :: txs) /\ Z.abs (amount tx) = v).
  { intros v [<- | Hv]; [exists t; simpl; auto |].
    apply in_map_iff in Hv as [tx [<- Htx]]. exists tx. simpl. auto. }
  assert (S : lo * n <= s <= hi * n) by (apply sumAbs_between; exact B).
  assert (L0 : 0 <= lo).
  { destruct (A lo m3) as [tx [_ <-]]. apply Z.abs_nonneg. }
  exists lo, hi.
  split; [reflexivity |]. split; [reflexivity |]. split; [exact B |].
  split; [apply A, m3 |]. split; [apply A, M3 |].
  intros Hexact. exists ((2 * s + n) / (2 * n)).
  assert (D1 : 2 * n * ((2 * s + n) / (2 * n)) <= 2 * s + n)
    by (apply Z.mul_div_le; lia).
  assert (D2 : 2 * s + n < 2 * n * Z.succ ((2 * s + n) / (2 * n)))
    by (apply Z.mul_succ_div_gt; lia).
  assert (Lo : lo <= (2 * s + n) / (2 * n))
    by (apply Z.div_le_lower_bound; lia).
  assert (Hi : (2 * s + n) / (2 * n) <= hi)
    by (apply Z.lt_succ_r, Z.div_lt_upper_bound; lia).
  split; [reflexivity |]. split; [split; assumption |].
  generalize dependent ((2 * s + n) / (2 * n)). intros q. intros.
  split; [lia |]. split; [lia | nia].
Qed.

(** ** The two balance curves, bucket by bucket *)


Lemma updateAt_unique {A : Type} (key : A -> string) (d : string) (f : A -> A)
      (l : list A) (i : nat) :
  NoDup (map key l) ->
  findIndex (fun x => String.eqb (key x) d) l = Some i ->
  updateAt i f l = map (fun x => if String.eqb (key x) d then f x else x) l.
Proof.
  revert i. induction l as [| y l IH]; intros i N F; [discriminate |].
  simpl in *. inversion N as [| ? ? Hy N']; subst.
  destruct (String.eqb_spec (key y) d) as [E | Hne].
  - injection F as <-. simpl. f_equal.
    rewrite <- (map_id l) at 1. apply map_ext_in. intros x Hx.
    destruct (String.eqb_spec (key x) d) as [Ex | _]; [| reflexivity].
    exfalso. apply Hy. rewrite E, <- Ex. now apply in_map.
  - destruct (findIndex _ l) as [j |] eqn:Fj; [| discriminate].
    injection F as <-. simpl. f_equal. now apply IH.
Qed.




(** X10. For every transaction list the chronological curve has one bucket
    for each date label that occurs, and none else; the buckets stand in the
    order in which the time-sorted array first meets their dates. *)
Theorem balanceData_one_bucket_per_date :
  forall (cu : option User) (txs : list Transaction),
    map bp_date (fst (balanceData cu txs))
    = firstSeen (map dateOf (snd (balanceData cu txs)))
    /\ NoDup (map bp_date (fst (balanceData cu txs)))
    /\ (forall d, In d (map bp_date (fst (balanceData cu txs)))
                  <-> exists tx, In tx txs /\ dateOf tx = d)
    /\ List.length (fst (balanceData cu txs))
       = List.length (nodup string_dec (map dateOf txs)).
Proof.
  intros cu txs. unfold balanceData. simpl.
  pose proof (balanceData_dates cu (arraySort byDateAsc txs)) as D.
  assert (M : forall d, In d (firstSeen (map dateOf (arraySort byDateAsc txs)))
                        <-> In d (map dateOf txs)).
  { intros d. rewrite firstSeen_In, !in_map_iff.
    split; intros [tx [E H]]; exists tx; (split; [exact E |]);
      now apply (arraySort_In byDateAsc txs tx). }
  split; [exact D |]. split; [rewrite D; apply firstSeen_NoDup |]. split.
  - intros d. rewrite D, M, in_map_iff.
    split; intros [tx [E H]]; exists tx; auto.
  - rewrite <- (length_map bp_date), D.
    apply Permutation_length, NoDup_Permutation.
    + apply firstSeen_NoDup.
    + apply NoDup_nodup.
    + intros d. now rewrite M, nodup_In.
Qed.


Lemma runningStep_dates (cu : option User) (accts : list BankAccount)
      (acc : list RunningPoint) (tx : Transaction) :
  map rp_date (runningStep cu accts acc tx)
  = if existsb (String.eqb (dateOf tx)) (map rp_date acc)
    then map rp_date acc else map rp_date acc ++ [dateOf tx].
Proof.
  unfold runningStep, dateOf.
  destruct (findIndex _ acc) as [i |] eqn:F.
  - assert (K : forall (inc : bool) (a b : Z) (j : nat) (l : list RunningPoint),
               map rp_date (updateAt j (bumpRunning inc a b) l) = map rp_date l).
    { intros inc a b j l. revert j.
      induction l as [| y l IH]; intros [| j]; simpl; try reflexivity.
      now rewrite IH. }
    rewrite K. apply findIndex_Some in F as [x [Hx E]].
    apply nth_error_In in Hx. apply String.eqb_eq in E.
    assert (X : existsb (String.eqb (csDate (createdAt tx))) (map rp_date acc) = true).
    { apply existsb_eqb_In. rewrite <- E. now apply in_map. }
    now rewrite X.
  - assert (X : existsb (String.eqb (csDate (createdAt tx))) (map rp_date acc) = false).
    { apply not_true_iff_false. intros X. apply existsb_eqb_In in X.
      apply in_map_iff in X as [x [E Hx]].
      rewrite findIndex_None in F. specialize (F x Hx). simpl in F.
      rewrite E, String.eqb_refl in F. discriminate. }
    rewrite X, map_app. reflexivity.
Qed.

Lemma running_dates (cu : option User) (accts : list BankAccount)
      (l : list Transaction) :
  map rp_date (fold_left (runningStep cu accts) l []) = firstSeen (map dateOf l).
Proof.
  induction l as [| x l IH] using rev_ind; [reflexivity |].
  rewrite fold_left_app, map_app. simpl.
  now rewrite firstSeen_snoc, runningStep_dates, IH.
Qed.

Lemma sumAbs_filter_perm (p : Transaction -> bool) (l l' : list Transaction) :
  Permutation l l' -> sumAbs (filter p l) = sumAbs (filter p l').
Proof.
  induction 1 as [| x l1 l2 _ IH | x y l | l1 l2 l3 _ IH1 _ IH2]; simpl.
  - reflexivity.
  - destruct (p x); rewrite ?sumAbs_cons; lia.
  - destruct (p x), (p y); rewrite ?sumAbs_cons; lia.
  - lia.
Qed.

Lemma onDate_snoc_sum (q : Transaction -> bool) (d : string)
      (l : list Transaction) (x : Transaction) :
  sumAbs (filter (fun tx => q tx && onDate d tx) (l ++ [x]))
  = sumAbs (filter (fun tx => q tx && onDate d tx) l)
    + (if q x && String.eqb (dateOf x) d then Z.abs (amount x) else 0).
Proof. apply sumAbs_filter_snoc. Qed.

(** What the backward walk has accumulated for each date after the array
    [l]: the incoming amounts of the date, and the outgoing ones negated. *)
Lemma running_subtotals (cu : option User) (accts : list BankAccount)
      (l : list Transaction) :
  Forall (fun p => rp_incoming p = incomingOn cu (rp_date p) l
                   /\ rp_outgoing p = - outgoingOn cu (rp_date p) l)
         (fold_left (runningStep cu accts) l []).
Proof.
  induction l as [| x l IH] using rev_ind; [constructor |].
  pose proof (running_dates cu accts l) as D.
  rewrite fold_left_app. simpl.
  set (acc := fold_left (runningStep cu accts) l []) in *.
  assert (N : NoDup (map rp_date acc)) by (rewrite D; apply firstSeen_NoDup).
  unfold incomingOn, outgoingOn in *.
  unfold runningStep.
  destruct (findIndex _ acc) as [i |] eqn:F.
  - rewrite (updateAt_unique rp_date _ _ _ _ N F).
    apply Forall_forall. intros p' Hp'.
    apply in_map_iff in Hp' as [p [<- Hp]].
    rewrite Forall_forall in IH. destruct (IH p Hp) as [Hi Ho].
    rewrite !onDate_snoc_sum. fold (dateOf x).
    destruct (String.eqb_spec (rp_date p) (dateOf x)) as [E | Hne].
    + simpl. rewrite <- E, String.eqb_refl, !andb_true_r.
      destruct (isIncomingTransaction cu x); simpl; lia.
    + apply not_eq_sym, String.eqb_neq in Hne.
      rewrite Hne, !andb_false_r. lia.
  - assert (Fresh : ~ In (dateOf x) (map dateOf l)).
    { intros Hin. rewrite <- firstSeen_In, <- D in Hin.
      apply in_map_iff in Hin as [p [E Hp]].
      rewrite findIndex_None in F. specialize (F p Hp). simpl in F.
      fold (dateOf x) in F. rewrite E, String.eqb_refl in F. discriminate. }
    apply Forall_app. split.
    + apply Forall_forall. intros p Hp.
      rewrite Forall_forall in IH. destruct (IH p Hp) as [Hi Ho].
      rewrite !onDate_snoc_sum.
      assert (Hne : String.eqb (dateOf x) (rp_date p) = false).
      { apply String.eqb_neq. intros E. apply Fresh.
        rewrite <- firstSeen_In, <- D, E. now apply in_map. }
      rewrite Hne, !andb_false_r. lia.
    + constructor; [| constructor]. simpl. fold (dateOf x).
      rewrite !onDate_snoc_sum, String.eqb_refl, !andb_true_r.
      rewrite !sumAbs_filter_none.
      * destruct (isIncomingTransaction cu x); simpl; lia.
      * intros tx Htx. apply andb_false_iff. right.
        apply String.eqb_neq. intros E. apply Fresh.
        rewrite <- E. exact (in_map dateOf l tx Htx).
      * intros tx Htx. apply andb_false_iff. right.
        apply String.eqb_neq. intros E. apply Fresh.
        rewrite <- E. exact (in_map dateOf l tx Htx).
Qed.

Lemma total_app {A : Type} (f : A -> Z) (l1 l2 : list A) :
  total f (l1 ++ l2) = total f l1 + total f l2.
Proof. induction l1 as [| x l1 IH]; simpl; [reflexivity | rewrite IH; lia]. Qed.

Lemma total_rev {A : Type} (f : A -> Z) (l : list A) :
  total f (rev l) = total f l.
Proof.
  induction l as [| x l IH]; simpl; [reflexivity |].
  rewrite total_app, IH. simpl. lia.
Qed.

Lemma total_ext_in {A : Type} (f g : A -> Z) (l : list A) :
  (forall x, In x l -> f x = g x) -> total f l = total g l.
Proof.
  induction l as [| x l IH]; intros H; simpl; [reflexivity |].
  rewrite (H x) by (simpl; auto). rewrite IH; [reflexivity |].
  intros y Hy. apply H. simpl. auto.
Qed.

Lemma total_map {A B : Type} (f : B -> Z) (g : A -> B) (l : list A) :
  total f (map g l) = total (fun x => f (g x)) l.
Proof. induction l as [| x l IH]; simpl; [reflexivity | now rewrite IH]. Qed.

Lemma total_single_key (keys : list string) (k : string) (a : Z) :
  NoDup keys -> In k keys ->
  total (fun k' => if String.eqb k k' then a else 0) keys = a.
Proof.
  induction 1 as [| k0 keys Hk0 N IH]; intros Hin; [destruct Hin |].
  simpl. destruct Hin as [-> | Hin].
  - rewrite String.eqb_refl.
    rewrite (total_ext_in _ (fun _ => 0)).
    + clear. induction keys; simpl; lia.
    + intros k' Hk'. destruct (String.eqb_spec k k') as [<- | _]; [| reflexivity].
      contradiction.
  - destruct (String.eqb_spec k k0) as [-> | _]; [contradiction |].
    rewrite IH by exact Hin. lia.
Qed.

(** Sums grouped by a key add up to the sum over the whole array. *)
Lemma total_by_key (q : Transaction -> bool) (key : Transaction -> string)
      (keys : list string) (l : list Transaction) :
  NoDup keys -> (forall tx, In tx l -> In (key tx) keys) ->
  total (fun k => sumAbs (filter (fun tx => q tx && String.eqb (key tx) k) l)) keys
  = sumAbs (filter q l).
Proof.
  intros N. induction l as [| x l IH]; intros Hin.
  - simpl. clear. induction keys; simpl; [reflexivity |].
    change (sumAbs []) with 0 in *. lia.
  - assert (Step : forall k,
               sumAbs (filter (fun tx => q tx && String.eqb (key tx) k) (x :: l))
               = (if String.eqb (key x) k
                  then (if q x then Z.abs (amount x) else 0) else 0)
                 + sumAbs (filter (fun tx => q tx && String.eqb (key tx) k) l)).
    { intros k. simpl.
      destruct (q x), (String.eqb (key x) k); simpl; rewrite ?sumAbs_cons; lia. }
    rewrite (total_ext_in _ _ keys (fun k _ => Step k)).
    assert (Split : forall (f g : string -> Z) (ks : list string),
               total (fun k => f k + g k) ks = total f ks + total g ks).
    { intros f g ks. induction ks; simpl; lia. }
    rewrite Split, IH by (intros; apply Hin; simpl; auto).
    rewrite total_single_key by (auto; apply Hin; simpl; auto).
    simpl. destruct (q x); rewrite ?sumAbs_cons; lia.
Qed.

(** X12. For every transaction list the running-balance curve has one
    bucket for each date label that occurs; a bucket's incoming part is the
    sum of the incoming amounts of its date and its outgoing part the negated
    sum of the others, each added up in the order of the array as the sort
    leaves it, newest first. For integer amounts whose absolute values add
    up to at most 2^53 the order does not matter: the parts are the sums
    over the list as given, and over all buckets the incoming parts add up
    to the income total and the outgoing parts to the negated expense
    total. *)
Theorem runningBalanceData_subtotals :
  forall (cu : option User) (accts : list BankAccount) (txs : list Transaction),
    NoDup (map rp_date (fst (runningBalanceData cu accts txs)))
    /\ (forall d, In d (map rp_date (fst (runningBalanceData cu accts txs)))
                  <-> exists tx, In tx txs /\ dateOf tx = d)
    /\ (forall p, In p (fst (runningBalanceData cu accts txs)) ->
                  rp_incoming p
                  = incomingOn cu (rp_date p) (snd (runningBalanceData cu accts txs))
                  /\ rp_outgoing p
                     = - outgoingOn cu (rp_date p)
                                    (snd (runningBalanceData cu accts txs)))
    /\ (exactVolume txs ->
        (forall p, In p (fst (runningBalanceData cu accts txs)) ->
                   rp_incoming p = incomingOn cu (rp_date p) txs
                   /\ rp_outgoing p = - outgoingOn cu (rp_date p) txs
                   /\ 0 <= rp_incoming p <= maxExact
                   /\ - maxExact <= rp_outgoing p <= 0)
        /\ total rp_incoming (fst (runningBalanceData cu accts txs))
           = Income (transactionTypes cu txs)
        /\ total rp_outgoing (fst (runningBalanceData cu accts txs))
           = - Expense (transactionTypes cu txs)).
Proof.
  intros cu accts txs. unfold runningBalanceData. simpl.
  set (l := arraySort byDateDesc txs).
  pose proof (arraySort_perm byDateDesc txs : Permutation l txs) as P.
  pose proof (running_dates cu accts l) as D.
  pose proof (running_subtotals cu accts l) as S.
  set (acc := fold_left (runningStep cu accts) l []) in *.
  rewrite Forall_forall in S.
  assert (N : NoDup (map rp_date acc)) by (rewrite D; apply firstSeen_NoDup).
  assert (Sub : forall p, In p acc ->
                          rp_incoming p = incomingOn cu (rp_date p) txs
                          /\ rp_outgoing p = - outgoingOn cu (rp_date p) txs).
  { intros p Hp. destruct (S p Hp) as [Hi Ho]. unfold incomingOn, outgoingOn in *.
    rewrite Hi, Ho, !(sumAbs_filter_perm _ _ _ P). auto. }
  assert (Dates : forall tx, In tx txs -> In (dateOf tx) (map rp_date acc)).
  { intros tx Htx. rewrite D. apply firstSeen_In, in_map.
    now apply (Permutation_in _ (Permutation_sym P)). }
  split; [| split; [| split; [| intros Hexact; split; [| split]]]].
  - rewrite map_rev. apply NoDup_rev, N.
  - intros d. rewrite map_rev, <- in_rev, D, firstSeen_In, in_map_iff.
    split; intros [tx [E H]]; exists tx; split; auto.
    + now apply (Permutation_in _ P).
    + now apply (Permutation_in _ (Permutation_sym P)).
  - intros p Hp. apply in_rev in Hp. now apply S.
  - intros p Hp. apply in_rev in Hp. destruct (Sub p Hp) as [Hi Ho].
    split; [exact Hi |]. split; [exact Ho |].
    unfold exactVolume in Hexact. rewrite Hi, Ho. unfold incomingOn, outgoingOn.
    pose proof (sumAbs_partition
                  (fun tx => isIncomingTransaction cu tx && onDate (rp_date p) tx)
                  txs) as Q1.
    pose proof (sumAbs_partition
                  (fun tx => negb (isIncomingTransaction cu tx)
                             && onDate (rp_date p) tx) txs) as Q2.
    pose proof (sumAbs_nonneg
                  (filter (fun tx => isIncomingTransaction cu tx
                                     && onDate (rp_date p) tx) txs)).
    pose proof (sumAbs_nonneg
                  (filter (fun tx => negb (isIncomingTransaction cu tx
                                           && onDate (rp_date p) tx)) txs)).
    pose proof (sumAbs_nonneg
                  (filter (fun tx => negb (isIncomingTransaction cu tx)
                                     && onDate (rp_date p) tx) txs)).
    pose proof (sumAbs_nonneg
                  (filter (fun tx => negb (negb (isIncomingTransaction cu tx)
                                           && onDate (rp_date p) tx)) txs)).
    assert (M : maxExact = 9007199254740992) by reflexivity.
    cbv beta in Q1, Q2. repeat split; lia.
  - rewrite total_rev, (total_ext_in _ (fun p => incomingOn cu (rp_date p) txs))
      by (intros p Hp; apply Sub, Hp).
    rewrite <- (total_map (fun d => incomingOn cu d txs) rp_date).
    unfold incomingOn, onDate. fold dateOf.
    change (fun tx => csDate (createdAt tx)) with dateOf.
    rewrite (total_by_key (isIncomingTransaction cu) dateOf) by auto.
    unfold transactionTypes. rewrite transactionTypes_from. simpl. reflexivity.
  - rewrite total_rev, (total_ext_in _ (fun p => - outgoingOn cu (rp_date p) txs))
      by (intros p Hp; apply Sub, Hp).
    rewrite <- (total_map (fun d => - outgoingOn cu d txs) rp_date).
    assert (Neg : forall (f : string -> Z) (ks : list string),
               total (fun k => - f k) ks = - total f ks).
    { intros f ks. induction ks; simpl; lia. }
    rewrite Neg. f_equal. unfold outgoingOn, onDate.
    rewrite (total_by_key (fun tx => negb (isIncomingTransaction cu tx)) dateOf)
      by auto.
    unfold transactionTypes. rewrite transactionTypes_from. simpl. reflexivity.
Qed.

Lemma findIndex_last_by_key {A : Type} (key : A -> string) (acc : list A)
      (p : A) (d : string) :
  NoDup (map key (acc ++ [p])) -> key p = d ->
  findIndex (fun item => String.eqb (key item) d) (acc ++ [p])
  = Some (List.length acc).
Proof.
  intros N E. rewrite findIndex_app.
  assert (F : findIndex (fun item => String.eqb (key item) d) acc = None).
  { apply findIndex_None. intros x Hx. apply String.eqb_neq. intros Hd.
    rewrite map_app in N. simpl in N. apply NoDup_remove_2 in N.
    apply N. rewrite app_nil_r, E, <- Hd. now apply in_map. }
  rewrite F. simpl. rewrite E, String.eqb_refl. simpl. f_equal. lia.
Qed.

(** Backward unwinding over an array that keeps each date together: the
    last bucket is the date of the last transaction walked and holds the seed
    minus the net amount of the array. *)
Lemma running_last_bucket (cu : option User) (accts : list BankAccount)
      (l : list Transaction) (t : Transaction) :
  grouped (l ++ [t]) ->
  exists acc p,
    fold_left (runningStep cu accts) (l ++ [t]) [] = acc ++ [p]
    /\ rp_date p = dateOf t
    /\ rp_balance p = seedBalance accts - netAmount cu (l ++ [t]).
Proof.
  assert (Back : forall tx, backwardAmount cu tx = - forwardAmount cu tx).
  { intros tx. unfold backwardAmount, forwardAmount.
    destruct (isIncomingTransaction cu tx); lia. }
  revert t. induction l as [| t0 l IH] using rev_ind; intros t G.
  - eexists [], _. simpl. unfold runningStep. simpl.
    split; [reflexivity |]. split; [reflexivity |]. simpl.
    unfold currentBalanceOf. simpl. rewrite Back. lia.
  - destruct (IH t0 (grouped_prefix _ _ G)) as [acc [p [Eacc [Hd Hb]]]].
    pose proof (running_dates cu accts (l ++ [t0])) as D.
    rewrite fold_left_app. cbn [fold_left]. rewrite Eacc in *.
    assert (L : currentBalanceOf accts (acc ++ [p])
                = seedBalance accts - netAmount cu (l ++ [t0])).
    { unfold currentBalanceOf. now rewrite lastElement_snoc. }
    rewrite (netAmount_app cu (l ++ [t0]) [t]). simpl.
    unfold runningStep. rewrite L.
    destruct (findIndex _ (acc ++ [p])) as [i |] eqn:F.
    + assert (Ht : dateOf t0 = dateOf t).
      { apply findIndex_Some in F as [x [Hx E]].
        apply nth_error_In in Hx. apply String.eqb_eq in E.
        assert (Hin : In (dateOf t) (map dateOf (l ++ [t0]))).
        { apply firstSeen_In. rewrite <- D. unfold dateOf. rewrite <- E.
          now apply in_map. }
        apply in_map_iff in Hin as [a [Ea Ha]].
        now apply (grouped_last l t0 t a). }
      rewrite (findIndex_last_by_key rp_date) in F.
      * injection F as <-. rewrite updateAt_last.
        exists acc. eexists. split; [reflexivity |]. simpl.
        split; [congruence | rewrite Back; lia].
      * rewrite D. apply firstSeen_NoDup.
      * unfold dateOf in *. congruence.
    + exists (acc ++ [p]). eexists. split; [reflexivity |]. simpl.
      split; [reflexivity | rewrite Back; lia].
Qed.



Lemma sortDesc_grouped (txs : list Transaction) :
  sameDatesAdjacent txs -> grouped (arraySort byDateDesc txs).
Proof.
  intros Hadj. rewrite byDateDesc_byKey.
  apply (sorted_grouped (fun tx => - timeOf tx) txs); auto.
  - right. intros. lia.
  - intros x. apply arraySort_In.
  - apply arraySort_byKey_sorted.
Qed.


Lemma netAmount_abs (cu : option User) (txs : list Transaction) :
  Z.abs (netAmount cu txs) <= sumAbs txs.
Proof.
  induction txs as [| tx txs IH]; [reflexivity |].
  rewrite sumAbs_cons. simpl. unfold forwardAmount.
  destruct (isIncomingTransaction cu tx); lia.
Qed.

(** X14. For integer amounts that, together with the seed, stay within
    2^53 in absolute value: when the transactions that share a date label
    are adjacent in time, the first bucket of the running-balance curve
    holds the seed minus the ending balance of the chronological curve, so
    unwinding every transaction from a seed equal to that ending balance
    arrives at 0, where the chronological curve starts; the ending balance
    is the net amount of all transactions, and both values are within
    2^53. *)
Theorem running_curve_starts_where_forward_starts :
  forall st : AppState,
    sameDatesAdjacent (transactions st) ->
    transactions st <> [] ->
    exactBalances (accounts st) (transactions st) ->
    exists p rest,
      r_runningBalanceData (render st) = p :: rest
      /\ rp_balance p
         = seedBalance (accounts st) - lastBalanceOf (r_balanceData (render st))
      /\ lastBalanceOf (r_balanceData (render st))
         = netAmount (currentUser st) (transactions st)
      /\ Z.abs (lastBalanceOf (r_balanceData (render st))) <= maxExact
      /\ Z.abs (rp_balance p) <= maxExact.
Proof.
  intros st Hadj Hne Hexact.
  destruct st as [T accts lo il er tk au sf so cu ls].
  unfold exactBalances in Hexact. cbn [transactions accounts currentUser] in *.
  pose proof (netAmount_abs cu T) as Hnet.
  unfold render, balanceData, runningBalanceData.
  cbn [transactions accounts currentUser sortField sortOrder
       r_balanceData r_runningBalanceData].
  rewrite sortDesc_after_sortAsc.
  pose proof (arraySort_perm byDateAsc T) as PL.
  pose proof (arraySort_perm byDateDesc T) as PL'.
  assert (GL : grouped (arraySort byDateAsc T)).
  { apply (sorted_grouped timeOf T); auto.
    - intros x. apply arraySort_In.
    - apply (arraySort_byKey_sorted timeOf). }
  pose proof (sortDesc_grouped T Hadj) as GL'.
  destruct (exists_last (l := arraySort byDateAsc T)) as [l [t EL]].
  { intros E. rewrite E in PL. apply Permutation_nil in PL. congruence. }
  destruct (exists_last (l := arraySort byDateDesc T)) as [l' [t' EL']].
  { intros E. rewrite E in PL'. apply Permutation_nil in PL'. congruence. }
  rewrite EL, EL' in *.
  destruct (balance_last_bucket cu l t GL) as [acc [p [Ef [Hd Hb]]]].
  destruct (running_last_bucket cu accts l' t' GL') as [acc' [p' [Er [Hd' Hb']]]].
  rewrite Ef, Er, rev_app_distr. simpl.
  exists p', (rev acc').
  unfold lastBalanceOf. rewrite lastElement_snoc.
  split; [reflexivity |].
  rewrite Hb, Hb', (netAmount_perm cu _ _ PL), (netAmount_perm cu _ _ PL').
  split; [reflexivity |]. split; [reflexivity |]. lia.
Qed.

(** ** Top counterparties on every list *)

Lemma filter_partition_perm {A : Type} (p : A -> bool) (l : list A) :
  Permutation (filter p l ++ filter (fun x => negb (p x)) l) l.
Proof.
  induction l as [| x l IH]; simpl; [constructor |].
  destruct (p x); simpl.
  - now constructor.
  - apply Permutation_sym, Permutation_cons_app, Permutation_sym, IH.
Qed.

Lemma ownEntries_perm {V : Type} (o : JsObject V) : Permutation (ownEntries o) o.
Proof.
  unfold ownEntries. rewrite arraySort_perm. apply filter_partition_perm.
Qed.

Lemma NoDup_firstn {A : Type} (n : nat) (l : list A) : NoDup l -> NoDup (firstn n l).
Proof.
  intros N. rewrite <- (firstn_skipn n l) in N. now apply NoDup_app_remove_r in N.
Qed.

Lemma total_perm {A : Type} (f : A -> Z) (l l' : list A) :
  Permutation l l' -> total f l = total f l'.
Proof. induction 1; simpl; lia. Qed.

Lemma total_firstn_le {A : Type} (f : A -> Z) (n : nat) (l : list A) :
  (forall x, In x l -> 0 <= f x) -> total f (firstn n l) <= total f l.
Proof.
  intros H. rewrite <- (firstn_skipn n l) at 2. rewrite total_app.
  assert (0 <= total f (skipn n l)); [| lia].
  assert (K : forall x, In x (skipn n l) -> 0 <= f x).
  { intros x Hx. apply H. rewrite <- (firstn_skipn n l). apply in_or_app. auto. }
  induction (skipn n l) as [| y s IH]; simpl; [lia |].
  assert (0 <= f y) by (apply K; simpl; auto).
  assert (0 <= total f s) by (apply IH; intros; apply K; simpl; auto). lia.
Qed.

(** The chart entries before the cut to five, as a rearrangement of one
    entry per own name. *)
Lemma partner_totals_perm (cu : option User) (txs : list Transaction) :
  Permutation
    (arraySort byTotalDesc (map withTotal (objectValues (topPartners cu txs))))
    (map (partnerTotalOf cu txs) (ownNames cu txs)).
Proof.
  rewrite arraySort_perm. unfold objectValues.
  rewrite (Permutation_map withTotal
             (Permutation_map snd (ownEntries_perm (topPartners cu txs)))).
  rewrite topPartners_entries, !map_map. reflexivity.
Qed.

Lemma before_filter {A : Type} (p : A -> bool) (a b : A) (l : list A) :
  before a b (filter p l) -> before a b l.
Proof.
  induction l as [| x l IH]; simpl; intros H; [inversion H |].
  destruct (p x).
  - apply before_cons in H as [[-> Hb] | H].
    + constructor. apply filter_In in Hb. apply Hb.
    + constructor 2. now apply IH.
  - constructor 2. now apply IH.
Qed.

(** Among the names that a filter keeps, the order of [firstSeen] is the
    order of first occurrences in the whole list. *)
Lemma firstSeen_filter_before (p : string -> bool) (l : list string) (x y : string) :
  before x y (firstSeen (filter p l)) -> (firstIndexOf x l < firstIndexOf y l)%nat.
Proof.
  induction l as [| z l IH] using rev_ind; [intros H; inversion H |].
  rewrite filter_app. simpl.
  assert (Keep : before x y (firstSeen (filter p l)) ->
                 (firstIndexOf x (l ++ [z]) < firstIndexOf y (l ++ [z]))%nat).
  { intros H. pose proof (IH H) as Hlt.
    apply before_In in H as [Hx Hy].
    rewrite firstSeen_In in Hx, Hy.
    apply filter_In in Hx as [Hx _]. apply filter_In in Hy as [Hy _].
    destruct (firstIndexOf_In x l [z] Hx) as [-> _].
    destruct (firstIndexOf_In y l [z] Hy) as [-> _]. exact Hlt. }
  destruct (p z) eqn:Pz; [| rewrite app_nil_r; exact Keep].
  rewrite firstSeen_snoc.
  destruct (existsb (String.eqb z) (firstSeen (filter p l))) eqn:E; [exact Keep |].
  intros H. apply before_app in H as [H | [H | [Hx [<- | []]]]].
  - now apply Keep.
  - inversion H as [? Hy | ? ? Hy]; subst; [destruct Hy | inversion Hy].
  - rewrite firstSeen_In in Hx. apply filter_In in Hx as [Hx _].
    destruct (firstIndexOf_In x l [z] Hx) as [-> Hlt].
    rewrite firstIndexOf_fresh; [exact Hlt |].
    intros Hz.
    assert (S : In z (firstSeen (filter p l)))
      by (apply firstSeen_In, filter_In; auto).
    apply existsb_eqb_In in S. congruence.
Qed.

(** The enumeration order of an object: array indices first, in ascending
    order, then the other names in creation order. *)
Lemma ownEntries_before {V : Type} (o : JsObject V) (a b : string * V) :
  before a b (ownEntries o) ->
  (isArrayIndex (fst a) = true /\ isArrayIndex (fst b) = true
   /\ indexOf (fst a) <= indexOf (fst b))
  \/ (isArrayIndex (fst a) = true /\ isArrayIndex (fst b) = false)
  \/ (isArrayIndex (fst a) = false /\ isArrayIndex (fst b) = false
      /\ before a b o).
Proof.
  unfold ownEntries. intros H. apply before_app in H as [H | [H | [Ha Hb]]].
  - left. pose proof H as H'. apply before_In in H' as [Ha Hb].
    apply arraySort_In, filter_In in Ha as [_ Ha].
    apply arraySort_In, filter_In in Hb as [_ Hb].
    split; [exact Ha |]. split; [exact Hb |].
    apply (arraySort_byKey_before _ (fun kv => indexOf (fst kv))) in H;
      [exact H | reflexivity].
  - right; right. pose proof H as H'. apply before_In in H' as [Ha Hb].
    apply filter_In in Ha as [_ Ha]. apply filter_In in Hb as [_ Hb].
    apply negb_true_iff in Ha, Hb.
    split; [exact Ha |]. split; [exact Hb |]. now apply before_filter in H.
  - right; left. apply arraySort_In, filter_In in Ha as [_ Ha].
    apply filter_In in Hb as [_ Hb]. apply negb_true_iff in Hb. auto.
Qed.

Lemma topPartnersData_length (cu : option User) (txs : list Transaction) :
  List.length (topPartnersData cu txs)
  = Nat.min 5 (List.length
                 (nodup string_dec
                        (filter (fun k => negb (inheritedKey k))
                                (map (partnerNameOf cu) txs)))).
Proof.
  unfold topPartnersData. rewrite length_firstn. f_equal.
  rewrite (Permutation_length (partner_totals_perm cu txs)), length_map.
  apply Permutation_length, NoDup_Permutation.
  - apply firstSeen_NoDup.
  - apply NoDup_nodup.
  - intros k. unfold ownNames. now rewrite firstSeen_In, nodup_In.
Qed.

(** A name with an own entry is on the chart, or the cut to five left it
    out below every entry of the chart. *)
Lemma topPartnersData_cut (cu : option User) (txs : list Transaction) (k : string) :
  In k (map (partnerNameOf cu) txs) -> inheritedKey k = false ->
  In (partnerTotalOf cu txs k) (topPartnersData cu txs)
  \/ (forall e, In e (topPartnersData cu txs) ->
                pt_total (partnerTotalOf cu txs k) <= pt_total e).
Proof.
  intros Hk Hi. unfold topPartnersData.
  set (data := map withTotal (objectValues (topPartners cu txs))).
  assert (Hd : In (partnerTotalOf cu txs k) (arraySort byTotalDesc data)).
  { apply (Permutation_in _ (Permutation_sym (partner_totals_perm cu txs))).
    apply in_map, ownNames_In. auto. }
  rewrite <- (firstn_skipn 5 (arraySort byTotalDesc data)) in Hd.
  apply in_app_or in Hd as [Hd | Hd]; [left; exact Hd |].
  right. intros e He. apply (byTotalDesc_sorted data).
  rewrite <- (firstn_skipn 5 (arraySort byTotalDesc data)).
  apply before_app. auto.
Qed.

(** Entries of equal total stand in the enumeration order of the
    accumulator. *)
Lemma topPartnersData_ties (cu : option User) (txs : list Transaction)
      (a b : PartnerTotal) :
  before a b (topPartnersData cu txs) -> pt_total a = pt_total b ->
  (isArrayIndex (pt_name a) = true /\ isArrayIndex (pt_name b) = true
   /\ indexOf (pt_name a) <= indexOf (pt_name b))
  \/ (isArrayIndex (pt_name a) = true /\ isArrayIndex (pt_name b) = false)
  \/ (isArrayIndex (pt_name a) = false /\ isArrayIndex (pt_name b) = false
      /\ (firstIndexOf (pt_name a) (map (partnerNameOf cu) txs)
          < firstIndexOf (pt_name b) (map (partnerNameOf cu) txs))%nat).
Proof.
  intros Hab Htie. unfold topPartnersData in Hab.
  apply before_firstn, before_arraySort in Hab as [Hab | Hlt];
    [| unfold byTotalDesc in Hlt; lia].
  unfold objectValues in Hab. rewrite map_map in Hab.
  apply before_map in Hab as [kva [kvb [Hk [<- <-]]]].
  assert (Name : forall kv, In kv (topPartners cu txs) ->
                            pt_name (withTotal (snd kv)) = fst kv).
  { intros kv Hkv. rewrite topPartners_entries in Hkv.
    apply in_map_iff in Hkv as [k [<- _]]. reflexivity. }
  pose proof Hk as Hin. apply before_In in Hin as [Ha Hb].
  rewrite ownEntries_In in Ha, Hb.
  rewrite (Name _ Ha), (Name _ Hb).
  apply ownEntries_before in Hk as [H | [H | [H1 [H2 H3]]]];
    [left; exact H | right; left; exact H |].
  right; right. split; [exact H1 |]. split; [exact H2 |].
  rewrite topPartners_entries in H3.
  apply before_map in H3 as [ka [kb [H3 [<- <-]]]]. simpl.
  unfold ownNames in H3. now apply firstSeen_filter_before in H3.
Qed.

(** C4, amended. For every transaction list: the top-counterparties list
    has min(5, number of distinct counterparty names that are not member
    names of [Object.prototype]) entries, which for a list without such
    names is min(5, number of distinct counterparty names); each entry
    carries the incoming and the outgoing sum of its name and their sum as
    total; totals never increase along the list; entries of equal total
    stand in the enumeration order of the accumulator, that is, names that
    are array indices first, in ascending order, and the other names behind
    them in the order in which they were first met; and a name left out by
    the cut to five has a total that no entry falls below. *)
Theorem topPartnersData_top_five :
  forall (cu : option User) (txs : list Transaction),
    List.length (topPartnersData cu txs)
    = Nat.min 5 (List.length
                   (nodup string_dec
                          (filter (fun k => negb (inheritedKey k))
                                  (map (partnerNameOf cu) txs))))
    /\ (Forall (fun tx => inheritedKey (partnerNameOf cu tx) = false) txs ->
        List.length (topPartnersData cu txs)
        = Nat.min 5 (List.length (nodup string_dec (map (partnerNameOf cu) txs))))
    /\ (forall e, In e (topPartnersData cu txs) ->
                  In (pt_name e) (map (partnerNameOf cu) txs)
                  /\ pt_incoming e = incomingFrom cu (pt_name e) txs
                  /\ pt_outgoing e = outgoingTo cu (pt_name e) txs
                  /\ pt_total e = pt_incoming e + pt_outgoing e)
    /\ (forall a b, before a b (topPartnersData cu txs) ->
                    pt_total b <= pt_total a)
    /\ (forall a b, before a b (topPartnersData cu txs) ->
                    pt_total a = pt_total b ->
                    (isArrayIndex (pt_name a) = true
                     /\ isArrayIndex (pt_name b) = true
                     /\ indexOf (pt_name a) <= indexOf (pt_name b))
                    \/ (isArrayIndex (pt_name a) = true
                        /\ isArrayIndex (pt_name b) = false)
                    \/ (isArrayIndex (pt_name a) = false
                        /\ isArrayIndex (pt_name b) = false
                        /\ (firstIndexOf (pt_name a) (map (partnerNameOf cu) txs)
                            < firstIndexOf (pt_name b) (map (partnerNameOf cu) txs))%nat))
    /\ (forall k, In k (map (partnerNameOf cu) txs) ->
                  inheritedKey k = false ->
                  (exists e, In e (topPartnersData cu txs) /\ pt_name e = k)
                  \/ (forall e, In e (topPartnersData cu txs) ->
                                incomingFrom cu k txs + outgoingTo cu k txs
                                <= pt_total e)).
Proof.
  intros cu txs. split; [apply topPartnersData_length |].
  split; [| split; [| split; [| split]]].
  - intros H. rewrite topPartnersData_length. do 3 f_equal.
    apply forallb_filter_id, forallb_forall. intros k Hk.
    apply in_map_iff in Hk as [tx [<- Htx]].
    rewrite Forall_forall in H. now rewrite (H tx Htx).
  - intros e He. apply topPartnersData_In in He as [k [Hk ->]].
    apply ownNames_In in Hk as [Hk _]. simpl. auto.
  - intros a b Hab. unfold topPartnersData in Hab.
    apply before_firstn in Hab. now apply byTotalDesc_sorted in Hab.
  - apply topPartnersData_ties.
  - intros k Hk Hi. destruct (topPartnersData_cut cu txs k Hk Hi) as [H | H].
    + left. exists (partnerTotalOf cu txs k). auto.
    + right. exact H.
Qed.

(** ** Without a current-user profile *)

(** C10, amended. With no current-user profile every transaction counts
    as outgoing: the income total is 0 and the expense total is the sum of
    the absolute amounts; each step of the balance curve writes the previous
    balance minus the absolute amount into the bucket of the transaction's
    date; the counterparty of a transaction is its receiver's name. Every
    entry of the top-counterparties list stands for a receiver's name and
    has no incoming part and, as outgoing part and total, the sum over the
    transactions sent to that name. And every receiver whose name is not a
    member name of [Object.prototype] gets its total: the accumulator holds
    an entry of that kind under the receiver's name, the list has as many
    entries as there are such names, up to five, and each such name is on
    the list unless every entry of the list has at least its total. *)
Theorem no_profile_all_outgoing :
  forall txs : list Transaction,
    transactionTypes None txs = mkTypeTotals 0 (sumAbs txs)
    /\ (forall tx, isIncomingTransaction None tx = false
                   /\ forwardAmount None tx = - Z.abs (amount tx)
                   /\ partnerNameOf None tx = name (user (to tx)))
    /\ (forall acc tx,
           exists p, In p (balanceStep None acc tx)
                     /\ bp_date p = csDate (createdAt tx)
                     /\ bp_balance p = lastBalanceOf acc - Z.abs (amount tx))
    /\ (forall e,
           In e (topPartnersData None txs) ->
           (exists tx, In tx txs /\ name (user (to tx)) = pt_name e)
           /\ pt_incoming e = 0
           /\ pt_outgoing e
              = sumAbs (filter (fun tx => String.eqb (name (user (to tx))) (pt_name e)) txs)
           /\ pt_total e = pt_outgoing e)
    /\ (forall tx,
           In tx txs -> inheritedKey (name (user (to tx))) = false ->
           getOwn (name (user (to tx))) (topPartners None txs)
           = Some (mkPartner
                     (name (user (to tx))) 0
                     (sumAbs (filter (fun tx' => String.eqb (name (user (to tx')))
                                                            (name (user (to tx))))
                                     txs))))
    /\ List.length (topPartnersData None txs)
       = Nat.min 5 (List.length
                      (nodup string_dec
                             (filter (fun k => negb (inheritedKey k))
                                     (map (fun tx => name (user (to tx))) txs))))
    /\ (forall tx,
           In tx txs -> inheritedKey (name (user (to tx))) = false ->
           In (mkPartnerTotal
                 (name (user (to tx))) 0
                 (sumAbs (filter (fun tx' => String.eqb (name (user (to tx')))
                                                        (name (user (to tx))))
                                 txs))
                 (sumAbs (filter (fun tx' => String.eqb (name (user (to tx')))
                                                        (name (user (to tx))))
                                 txs)))
              (topPartnersData None txs)
           \/ (forall e, In e (topPartnersData None txs) ->
                         sumAbs (filter (fun tx' => String.eqb (name (user (to tx')))
                                                               (name (user (to tx))))
                                        txs)
                         <= pt_total e)).
Proof.
  intros txs.
  assert (I : forall k, incomingFrom None k txs = 0)
    by (intros k; unfold incomingFrom; now apply sumAbs_filter_none).
  assert (E : forall k,
             partnerTotalOf None txs k
             = mkPartnerTotal
                 k 0
                 (sumAbs (filter (fun tx => String.eqb (name (user (to tx))) k) txs))
                 (sumAbs (filter (fun tx => String.eqb (name (user (to tx))) k) txs))).
  { intros k. unfold partnerTotalOf, partnerEntry, withTotal. simpl.
    rewrite I. reflexivity. }
  assert (K : forall tx, In tx txs ->
                         In (name (user (to tx))) (map (partnerNameOf None) txs)).
  { intros tx Htx. exact (in_map (partnerNameOf None) txs tx Htx). }
  split; [| split; [| split; [| split; [| split; [| split]]]]].
  - unfold transactionTypes. rewrite transactionTypes_from. simpl.
    f_equal.
    + now apply sumAbs_filter_none.
    + f_equal. apply forallb_filter_id, forallb_forall. reflexivity.
  - intros tx. repeat split.
  - intros acc tx.
    destruct (balanceStep_touches None acc tx) as [p [Hp [Hd Hb]]].
    exists p. repeat split; assumption.
  - intros e He. apply topPartnersData_In in He as [k [Hk ->]].
    apply ownNames_In in Hk as [Hk _].
    apply in_map_iff in Hk as [tx [Hname Htx]].
    simpl. rewrite I. split; [| repeat split].
    exists tx. auto.
  - intros tx Htx Hi. rewrite topPartners_entries, getOwn_entries.
    assert (X : existsb (String.eqb (name (user (to tx)))) (ownNames None txs) = true).
    { apply existsb_eqb_In, ownNames_In. split; [now apply K | exact Hi]. }
    rewrite X. unfold partnerEntry. simpl. rewrite I. reflexivity.
  - apply (topPartnersData_length None txs).
  - intros tx Htx Hi.
    destruct (topPartnersData_cut None txs _ (K tx Htx) Hi) as [H | H];
      rewrite E in H; [left; exact H | right; exact H].
Qed.

(** X15. For every transaction list, whatever the counterparty names: the
    top-counterparties list has at most five entries, no two for the same
    name and none for a member name of [Object.prototype]; totals never
    increase along it; an entry's parts are the sums of its name, added up
    in the order of the array, and are not negative; and for integer amounts
    whose absolute values add up to at most 2^53 the totals together do not
    exceed the total volume. *)
Theorem topPartnersData_on_every_list :
  forall (cu : option User) (txs : list Transaction),
    (List.length (topPartnersData cu txs) <= 5)%nat
    /\ NoDup (map pt_name (topPartnersData cu txs))
    /\ (forall a b, before a b (topPartnersData cu txs) -> pt_total b <= pt_total a)
    /\ (forall e, In e (topPartnersData cu txs) ->
                  inheritedKey (pt_name e) = false
                  /\ In (pt_name e) (map (partnerNameOf cu) txs)
                  /\ pt_incoming e = incomingFrom cu (pt_name e) txs
                  /\ pt_outgoing e = outgoingTo cu (pt_name e) txs
                  /\ pt_total e = pt_incoming e + pt_outgoing e
                  /\ 0 <= pt_incoming e /\ 0 <= pt_outgoing e)
    /\ (exactVolume txs ->
        total pt_total (topPartnersData cu txs) <= totalVolume (transactionStats txs)
        /\ totalVolume (transactionStats txs) <= maxExact).
Proof.
  intros cu txs. pose proof (partner_totals_perm cu txs) as P.
  split; [| split; [| split; [| split; [| intros Hexact; split; [| exact Hexact]]]]].
  - unfold topPartnersData. rewrite length_firstn. lia.
  - unfold topPartnersData. rewrite <- firstn_map. apply NoDup_firstn.
    apply (Permutation_NoDup (Permutation_sym (Permutation_map pt_name P))).
    rewrite map_map. simpl. rewrite map_id. apply firstSeen_NoDup.
  - intros a b H. unfold topPartnersData in H.
    apply before_firstn in H. now apply byTotalDesc_sorted in H.
  - intros e He. apply topPartnersData_In in He as [k [Hk ->]].
    apply ownNames_In in Hk as [Hk Hi]. simpl.
    repeat split; auto; apply sumAbs_nonneg.
  - unfold topPartnersData.
    set (sorted := arraySort byTotalDesc _) in *.
    assert (Pos : forall x, In x sorted -> 0 <= pt_total x).
    { intros x Hx. apply (Permutation_in _ P) in Hx.
      apply in_map_iff in Hx as [k [<- _]]. simpl.
      pose proof (sumAbs_nonneg
                    (filter (fun tx => isIncomingTransaction cu tx
                                       && String.eqb (partnerNameOf cu tx) k) txs)).
      pose proof (sumAbs_nonneg
                    (filter (fun tx => negb (isIncomingTransaction cu tx)
                                       && String.eqb (partnerNameOf cu tx) k) txs)).
      unfold incomingFrom, outgoingTo. lia. }
    apply (Z.le_trans _ _ _ (total_firstn_le pt_total 5 sorted Pos)).
    rewrite (total_perm _ _ _ P), total_map. simpl.
    set (own := filter (fun tx => negb (inheritedKey (partnerNameOf cu tx))) txs).
    assert (Own : forall (q : Transaction -> bool) k,
               In k (ownNames cu txs) ->
               sumAbs (filter (fun tx => q tx && String.eqb (partnerNameOf cu tx) k) txs)
               = sumAbs (filter (fun tx => q tx && String.eqb (partnerNameOf cu tx) k) own)).
    { intros q k Hk. apply ownNames_In in Hk as [_ Hi]. unfold own.
      f_equal. clear - Hi. induction txs as [| tx txs IH]; simpl; [reflexivity |].
      destruct (String.eqb_spec (partnerNameOf cu tx) k) as [E | Hne].
      - rewrite E, Hi. simpl. rewrite E, String.eqb_refl.
        destruct (q tx); simpl; now rewrite IH.
      - rewrite andb_false_r.
        destruct (inheritedKey (partnerNameOf cu tx)); simpl; [exact IH |].
        apply String.eqb_neq in Hne. now rewrite Hne, andb_false_r. }
    rewrite (total_ext_in _
               (fun k => incomingFrom cu k own + outgoingTo cu k own))
      by (intros k Hk; unfold incomingFrom, outgoingTo; now rewrite !(Own _ k Hk)).
    assert (Split : forall (f g : string -> Z) (ks : list string),
               total (fun k => f k + g k) ks = total f ks + total g ks).
    { intros f g ks. induction ks; simpl; lia. }
    assert (Keys : forall tx, In tx own -> In (partnerNameOf cu tx) (ownNames cu txs)).
    { intros tx Htx. unfold own in Htx. apply filter_In in Htx as [Htx Hi].
      apply ownNames_In. split; [now apply in_map | now apply negb_true_iff]. }
    rewrite Split. unfold incomingFrom, outgoingTo.
    rewrite !(total_by_key _ (partnerNameOf cu))
      by (auto; apply firstSeen_NoDup).
    rewrite sumAbs_partition.
    rewrite <- (sumAbs_partition
                  (fun tx => negb (inheritedKey (partnerNameOf cu tx))) txs).
    fold own.
    pose proof (sumAbs_nonneg
                  (filter (fun tx => negb (negb (inheritedKey (partnerNameOf cu tx)))) txs)).
    lia.
Qed.

(** ** Monthly totals *)

Lemma monthEntry_other (cu : option User) (txs : list Transaction)
      (tx : Transaction) (m : string) :
  monthOf tx <> m -> monthEntry cu (txs ++ [tx]) m = monthEntry cu txs m.
Proof.
  intros Hne. unfold monthEntry, incomingIn, outgoingIn.
  rewrite !sumAbs_filter_snoc.
  apply String.eqb_neq in Hne. rewrite Hne, !andb_false_r.
  do 2 f_equal; lia.
Qed.

Lemma monthEntry_same (cu : option User) (txs : list Transaction) (tx : Transaction) :
  monthEntry cu (txs ++ [tx]) (monthOf tx)
  = (monthOf tx,
     (if isIncomingTransaction cu tx
      then addMonthIncoming (Z.abs (amount tx))
      else subMonthOutgoing (Z.abs (amount tx)))
       (snd (monthEntry cu txs (monthOf tx)))).
Proof.
  unfold monthEntry, incomingIn, outgoingIn.
  rewrite !sumAbs_filter_snoc, String.eqb_refl, !andb_true_r.
  destruct (isIncomingTransaction cu tx); simpl;
    unfold addMonthIncoming, subMonthOutgoing; simpl; do 2 f_equal; lia.
Qed.

Lemma getOwn_months (cu : option User) (txs : list Transaction)
      (keys : list string) (k : string) :
  getOwn k (map (monthEntry cu txs) keys)
  = if existsb (String.eqb k) keys then Some (snd (monthEntry cu txs k)) else None.
Proof.
  unfold getOwn. induction keys as [| k' keys IH]; simpl; [reflexivity |].
  rewrite (String.eqb_sym k k').
  destruct (String.eqb_spec k' k) as [-> | Hne]; simpl; [reflexivity |].
  exact IH.
Qed.

Lemma ownMonths_snoc (txs : list Transaction) (tx : Transaction) :
  ownMonths (txs ++ [tx])
  = if inheritedKey (monthOf tx) then ownMonths txs
    else if existsb (String.eqb (monthOf tx)) (ownMonths txs)
         then ownMonths txs else ownMonths txs ++ [monthOf tx].
Proof.
  unfold ownMonths. rewrite map_app, filter_app. simpl.
  destruct (inheritedKey (monthOf tx)); simpl.
  - now rewrite app_nil_r.
  - apply firstSeen_snoc.
Qed.

Lemma ownMonths_In (txs : list Transaction) (k : string) :
  In k (ownMonths txs) <-> In k (map monthOf txs) /\ inheritedKey k = false.
Proof.
  unfold ownMonths. rewrite firstSeen_In, filter_In, negb_true_iff. reflexivity.
Qed.

Lemma monthEntry_absent (cu : option User) (txs : list Transaction) (k : string) :
  ~ In k (map monthOf txs) -> monthEntry cu txs k = (k, mkMonthTotals k 0 0).
Proof.
  intros Hk. unfold monthEntry, incomingIn, outgoingIn.
  rewrite !sumAbs_filter_none; [reflexivity | |];
    intros tx Htx; (destruct (String.eqb_spec (monthOf tx) k) as [E | _];
                    [| apply andb_false_r]);
    exfalso; apply Hk; rewrite <- E; exact (in_map monthOf txs tx Htx).
Qed.

(** The accumulator of [monthlyData] after the reduce: one entry for each
    month name that is not a member of [Object.prototype], in the order of
    first occurrence, holding the two sums of that month. *)
Lemma monthlyData_entries (cu : option User) (txs : list Transaction) :
  monthlyData cu txs = map (monthEntry cu txs) (ownMonths txs).
Proof.
  induction txs as [| tx txs IH] using rev_ind; [reflexivity |].
  unfold monthlyData in *. rewrite fold_left_app. simpl. rewrite IH.
  unfold monthlyStep. fold (monthOf tx). rewrite getOwn_months, ownMonths_snoc.
  destruct (existsb (String.eqb (monthOf tx)) (ownMonths txs)) eqn:E.
  - assert (I : inheritedKey (monthOf tx) = false).
    { apply existsb_eqb_In, ownMonths_In in E. apply E. }
    rewrite I. unfold modifyOwn. rewrite map_map.
    apply map_ext_in. intros k Hk. simpl.
    destruct (String.eqb_spec k (monthOf tx)) as [-> | Hne].
    + now rewrite monthEntry_same.
    + rewrite monthEntry_other; [reflexivity | congruence].
  - assert (Others : forall k, In k (ownMonths txs) -> monthOf tx <> k).
    { intros k Hk <-. apply existsb_eqb_In in Hk. congruence. }
    destruct (inheritedKey (monthOf tx)) eqn:I.
    + apply map_ext_in. intros k Hk.
      symmetry. apply monthEntry_other. now apply Others.
    + unfold defineOwn, modifyOwn. rewrite !map_app, map_map. f_equal.
      * apply map_ext_in. intros k Hk. simpl.
        destruct (String.eqb_spec k (monthOf tx)) as [-> | Hne].
        -- exfalso. now apply (Others _ Hk).
        -- symmetry. apply monthEntry_other. now apply Others.
      * simpl. rewrite String.eqb_refl, monthEntry_same.
        rewrite monthEntry_absent; [reflexivity |].
        intros Hin. rewrite <- not_true_iff_false in E. apply E.
        apply existsb_eqb_In, ownMonths_In. auto.
Qed.

(** X16. When no month name is a member name of [Object.prototype], the
    monthly chart has one entry for each month name that occurs; an entry's
    incoming part is the sum of the incoming amounts of its month and its
    outgoing part the negated sum of the others, each added up in the order
    of the array, so incoming parts are not negative and outgoing parts not
    positive; and for integer amounts whose absolute values add up to at
    most 2^53 the incoming parts of all months add up to the income total
    and the outgoing parts to the negated expense total, both within 2^53. *)
Theorem monthlyChartData_totals :
  forall (cu : option User) (txs : list Transaction),
    Forall (fun tx => inheritedKey (monthOf tx) = false) txs ->
    NoDup (map m_month (monthlyChartData cu txs))
    /\ (forall m, In m (map m_month (monthlyChartData cu txs))
                  <-> exists tx, In tx txs /\ monthOf tx = m)
    /\ (forall e, In e (monthlyChartData cu txs) ->
                  m_incoming e = incomingIn cu (m_month e) txs
                  /\ m_outgoing e = - outgoingIn cu (m_month e) txs
                  /\ 0 <= m_incoming e /\ m_outgoing e <= 0)
    /\ (exactVolume txs ->
        total m_incoming (monthlyChartData cu txs) = Income (transactionTypes cu txs)
        /\ total m_outgoing (monthlyChartData cu txs)
           = - Expense (transactionTypes cu txs)
        /\ Income (transactionTypes cu txs) + Expense (transactionTypes cu txs)
           <= maxExact).
Proof.
  intros cu txs H. rewrite Forall_forall in H.
  assert (P : Permutation (monthlyChartData cu txs)
                          (map (fun m => snd (monthEntry cu txs m)) (ownMonths txs))).
  { unfold monthlyChartData, objectValues.
    rewrite (Permutation_map snd (ownEntries_perm (monthlyData cu txs))).
    rewrite monthlyData_entries, map_map. reflexivity. }
  assert (N : NoDup (ownMonths txs)) by apply firstSeen_NoDup.
  assert (K : forall tx, In tx txs -> In (monthOf tx) (ownMonths txs)).
  { intros tx Htx. apply ownMonths_In. split; [now apply in_map | now apply H]. }
  assert (Neg : forall (f : string -> Z) (ks : list string),
             total (fun k => - f k) ks = - total f ks).
  { intros f ks. induction ks; simpl; lia. }
  split; [| split; [| split; [| intros Hexact; split; [| split]]]].
  - apply (Permutation_NoDup (Permutation_sym (Permutation_map m_month P))).
    rewrite map_map. simpl. now rewrite map_id.
  - intros m. split.
    + intros Hm. apply (Permutation_in _ (Permutation_map m_month P)) in Hm.
      rewrite map_map in Hm. simpl in Hm. rewrite map_id in Hm.
      apply ownMonths_In in Hm as [Hm _].
      apply in_map_iff in Hm as [tx [E Htx]]. eauto.
    + intros [tx [Htx <-]].
      apply (Permutation_in _ (Permutation_sym (Permutation_map m_month P))).
      rewrite map_map. simpl. rewrite map_id. now apply K.
  - intros e He. apply (Permutation_in _ P) in He.
    apply in_map_iff in He as [m [<- _]]. simpl.
    pose proof (sumAbs_nonneg
                  (filter (fun tx => isIncomingTransaction cu tx
                                     && String.eqb (monthOf tx) m) txs)).
    pose proof (sumAbs_nonneg
                  (filter (fun tx => negb (isIncomingTransaction cu tx)
                                     && String.eqb (monthOf tx) m) txs)).
    unfold incomingIn, outgoingIn. repeat split; lia.
  - rewrite (total_perm _ _ _ P), total_map. simpl. unfold incomingIn.
    rewrite (total_by_key _ monthOf) by auto.
    unfold transactionTypes. rewrite transactionTypes_from. reflexivity.
  - rewrite (total_perm _ _ _ P), total_map. simpl. rewrite Neg.
    unfold outgoingIn. rewrite (total_by_key _ monthOf) by auto.
    unfold transactionTypes. rewrite transactionTypes_from. reflexivity.
  - unfold exactVolume in Hexact. unfold transactionTypes.
    rewrite transactionTypes_from. cbn [Income Expense Z.add].
    now rewrite sumAbs_partition.
Qed.

(** ** Daily transaction counts *)

Lemma getOwn_keyed {V : Type} (f : string -> V) (keys : list string) (k : string) :
  getOwn k (map (fun k' => (k', f k')) keys)
  = if existsb (String.eqb k) keys then Some (f k) else None.
Proof.
  unfold getOwn. induction keys as [| k' keys IH]; simpl; [reflexivity |].
  rewrite (String.eqb_sym k k').
  destruct (String.eqb_spec k' k) as [-> | Hne]; simpl; [reflexivity |].
  exact IH.
Qed.

Lemma countOn_snoc (k : string) (txs : list Transaction) (tx : Transaction) :
  countOn k (txs ++ [tx])
  = countOn k txs + (if String.eqb (dayOf tx) k then 1 else 0).
Proof.
  unfold countOn. rewrite filter_app, length_app. simpl.
  destruct (String.eqb (dayOf tx) k); simpl; lia.
Qed.

Lemma countOn_absent (k : string) (txs : list Transaction) :
  ~ In k (map dayOf txs) -> countOn k txs = 0.
Proof.
  intros Hk. unfold countOn.
  induction txs as [| tx txs IH]; [reflexivity |]. simpl in *.
  destruct (String.eqb_spec (dayOf tx) k) as [E | _]; [exfalso; auto |].
  apply IH. auto.
Qed.

(** The accumulator of the daily count when no label is a member name of
    [Object.prototype]: one entry for each label, in the order of first
    occurrence, holding the number of transactions of that label. *)
Lemma dailyTransactionCount_entries (txs : list Transaction) :
  Forall (fun tx => inheritedKey (dayOf tx) = false) txs ->
  dailyTransactionCount txs = map (dayEntry txs) (firstSeen (map dayOf txs)).
Proof.
  induction txs as [| tx txs IH] using rev_ind; intros H; [reflexivity |].
  apply Forall_app in H as [H Htx]. inversion Htx as [| ? ? I _]; subst.
  unfold dailyTransactionCount in *. rewrite fold_left_app. simpl.
  rewrite (IH H), map_app. simpl. rewrite firstSeen_snoc.
  unfold dailyStep. fold (dayOf tx).
  unfold dayEntry at 1. rewrite (getOwn_keyed (fun k => Count (countOn k txs))).
  destruct (existsb (String.eqb (dayOf tx)) (firstSeen (map dayOf txs))) eqn:E.
  - unfold modifyOwn. rewrite map_map. apply map_ext_in. intros k Hk. simpl.
    unfold dayEntry. rewrite countOn_snoc, orZero_id, (String.eqb_sym k).
    destruct (String.eqb_spec (dayOf tx) k) as [<- | Hne]; [reflexivity |].
    do 2 f_equal. lia.
  - assert (P : String.eqb (dayOf tx) "__proto__" = false).
    { apply String.eqb_neq. intros Ep. rewrite Ep in I. discriminate. }
    rewrite P, I. unfold defineOwn. rewrite map_app. f_equal.
    + apply map_ext_in. intros k Hk. unfold dayEntry. rewrite countOn_snoc.
      destruct (String.eqb_spec (dayOf tx) k) as [<- | Hne]; [| do 2 f_equal; lia].
      apply existsb_eqb_In in Hk. congruence.
    + simpl. unfold dayEntry. rewrite countOn_snoc, String.eqb_refl.
      rewrite countOn_absent; [reflexivity |].
      intros Hin. rewrite <- firstSeen_In, <- existsb_eqb_In in Hin. congruence.
Qed.

Lemma total_countOn (keys : list string) (l : list Transaction) :
  NoDup keys -> (forall tx, In tx l -> In (dayOf tx) keys) ->
  total (fun k => countOn k l) keys = Z.of_nat (List.length l).
Proof.
  intros N. induction l as [| x l IH]; intros Hin.
  - apply eq_trans with (total (fun _ : string => 0) keys).
    + apply total_ext_in. reflexivity.
    + clear. induction keys; simpl in *; lia.
  - assert (Step : forall k, countOn k (x :: l)
                             = (if String.eqb (dayOf x) k then 1 else 0) + countOn k l).
    { intros k. unfold countOn. simpl.
      destruct (String.eqb (dayOf x) k); cbn [List.length]; lia. }
    rewrite (total_ext_in _ _ keys (fun k _ => Step k)).
    assert (Split : forall (f g : string -> Z) (ks : list string),
               total (fun k => f k + g k) ks = total f ks + total g ks).
    { intros f g ks. induction ks; simpl; lia. }
    rewrite Split, IH by (intros; apply Hin; simpl; auto).
    rewrite total_single_key by (auto; apply Hin; simpl; auto).
    cbn [List.length]. lia.
Qed.

(** X17. When no daily label is a member name of [Object.prototype], the
    daily count holds one number for each label that occurs, namely the
    number of transactions of that label, at least 1; labels are kept in the
    order in which the array first meets them; and the numbers add up to the
    number of transactions. *)
Theorem dailyTransactionCount_counts :
  forall txs : list Transaction,
    Forall (fun tx => inheritedKey (dayOf tx) = false) txs ->
    map fst (dailyTransactionCount txs) = firstSeen (map dayOf txs)
    /\ NoDup (map fst (dailyTransactionCount txs))
    /\ (forall k, In k (map fst (dailyTransactionCount txs))
                  <-> exists tx, In tx txs /\ dayOf tx = k)
    /\ (forall k v, In (k, v) (dailyTransactionCount txs) ->
                    v = Count (countOn k txs) /\ 1 <= countOn k txs)
    /\ total (fun kv => countValue (snd kv)) (dailyTransactionCount txs)
       = Z.of_nat (List.length txs).
Proof.
  intros txs H. rewrite (dailyTransactionCount_entries txs H).
  assert (K : map fst (map (dayEntry txs) (firstSeen (map dayOf txs)))
              = firstSeen (map dayOf txs)).
  { rewrite map_map. simpl. apply map_id. }
  split; [exact K |]. split; [rewrite K; apply firstSeen_NoDup |].
  split; [| split].
  - intros k. rewrite K, firstSeen_In, in_map_iff.
    split; intros [tx [A B]]; exists tx; auto.
  - intros k v Hkv. apply in_map_iff in Hkv as [k' [[= <- <-] Hk]].
    split; [reflexivity |].
    apply firstSeen_In, in_map_iff in Hk as [tx [E Htx]].
    unfold countOn.
    assert (I : In tx (filter (fun t => String.eqb (dayOf t) k') txs)).
    { apply filter_In. split; [exact Htx | now apply String.eqb_eq]. }
    destruct (filter _ txs); [destruct I | cbn [List.length]; lia].
  - rewrite total_map. simpl. apply total_countOn; [apply firstSeen_NoDup |].
    intros tx Htx. apply firstSeen_In. now apply in_map.
Qed.

(** Sorting with a comparator that is an order on the elements of the
    array: every element stands before the ones it does not come after. *)
Lemma arraySort_before_on {A : Type} (cmp : A -> A -> Z) (P : A -> Prop)
      (l : list A) :
  (forall a b, P a -> P b -> 0 < cmp a b -> cmp b a <= 0) ->
  (forall a b c, P a -> P b -> P c -> cmp a b <= 0 -> cmp b c <= 0 -> cmp a c <= 0) ->
  (forall x, In x l -> P x) ->
  forall a b, before a b (arraySort cmp l) -> cmp a b <= 0.
Proof.
  intros Anti Trans.
  assert (Ins : forall x s,
             P x -> (forall y, In y s -> P y) ->
             (forall a b, before a b s -> cmp a b <= 0) ->
             forall a b, before a b (insertBy cmp x s) -> cmp a b <= 0).
  { intros x s Px. induction s as [| y s IH]; intros Ps Hs a b H; simpl in H.
    - inversion H as [? Hb | ? ? Hb]; subst; [destruct Hb | inversion Hb].
    - assert (Py : P y) by (apply Ps; simpl; auto).
      assert (Ps' : forall z, In z s -> P z) by (intros; apply Ps; simpl; auto).
      destruct (Z.leb_spec (cmp x y) 0) as [Hle | Hgt].
      + apply before_cons in H as [[-> Hb] | H]; [| now apply Hs].
        destruct Hb as [<- | Hb]; [exact Hle |].
        apply (Trans x y b); auto. apply Hs. now constructor.
      + apply before_cons in H as [[-> Hb] | H].
        * apply (Permutation_in _ (insertBy_perm cmp x s)) in Hb.
          destruct Hb as [<- | Hb]; [now apply Anti |].
          apply Hs. now constructor.
        * apply IH; auto. intros a' b' H'. apply Hs. now constructor 2. }
  induction l as [| x l IH]; intros Pl a b H; simpl in H; [inversion H |].
  apply (Ins x (arraySort cmp l)); auto.
  - apply Pl. simpl. auto.
  - intros y Hy. apply Pl. right. now apply arraySort_In in Hy.
  - apply IH. intros. apply Pl. simpl. auto.
Qed.

Lemma monthDay_not_inherited (k : string) :
  monthDay k <> None -> inheritedKey k = false.
Proof.
  intros H. destruct (inheritedKey k) eqn:I; [| reflexivity].
  exfalso. apply H. unfold inheritedKey in I.
  apply existsb_exists in I as [x [Hx E]]. apply String.eqb_eq in E. subst x.
  unfold objectPrototypeKeys in Hx. simpl in Hx.
  repeat (destruct Hx as [<- | Hx]; [reflexivity |]). destruct Hx.
Qed.

Lemma dailyCompare_le (a b : DayCount) (ka kb : Z * Z) :
  monthDay (d_date a) = Some ka -> monthDay (d_date b) = Some kb ->
  (dailyCompare a b <= 0 <-> monthDayLe ka kb).
Proof.
  intros Ha Hb. unfold dailyCompare, monthDayLe. rewrite Ha, Hb.
  destruct ka as [am ad], kb as [bm bd]. simpl.
  destruct (Z.eqb_spec (am - bm) 0); lia.
Qed.

(** X18. When every daily label reads as month/day, the daily chart is
    defined: it holds one entry for each label that occurs, with the number
    of transactions of that label; its entries are ordered by month and then
    by day, compared as numbers; and the counts add up to the number of
    transactions. *)
Theorem dailyTransactionData_sorted_counts :
  forall txs : list Transaction,
    Forall (fun tx => monthDay (dayOf tx) <> None) txs ->
    exists data,
      dailyTransactionData txs = Some data
      /\ Permutation data
                     (map (fun k => mkDayCount k (Count (countOn k txs)))
                          (firstSeen (map dayOf txs)))
      /\ (forall a b, before a b data ->
                      exists ka kb, monthDay (d_date a) = Some ka
                                    /\ monthDay (d_date b) = Some kb
                                    /\ monthDayLe ka kb)
      /\ total (fun e => countValue (d_count e)) data = Z.of_nat (List.length txs).
Proof.
  intros txs H.
  assert (HI : Forall (fun tx => inheritedKey (dayOf tx) = false) txs).
  { eapply Forall_impl; [| exact H]. intros tx. apply monthDay_not_inherited. }
  unfold dailyTransactionData.
  set (entries := map (fun kv => mkDayCount (fst kv) (snd kv))
                      (ownEntries (dailyTransactionCount txs))).
  assert (P : Permutation entries
                          (map (fun k => mkDayCount k (Count (countOn k txs)))
                               (firstSeen (map dayOf txs)))).
  { unfold entries.
    rewrite (Permutation_map _ (ownEntries_perm (dailyTransactionCount txs))).
    rewrite (dailyTransactionCount_entries txs HI), map_map. reflexivity. }
  assert (R : forall e, In e entries -> exists k, monthDay (d_date e) = Some k).
  { intros e He. apply (Permutation_in _ P) in He.
    apply in_map_iff in He as [k [<- Hk]]. simpl.
    apply firstSeen_In, in_map_iff in Hk as [tx [<- Htx]].
    rewrite Forall_forall in H. specialize (H tx Htx).
    destruct (monthDay (dayOf tx)) as [kk |]; [eauto | congruence]. }
  assert (RB : forallb readable entries = true).
  { apply forallb_forall. intros e He. destruct (R e He) as [k Hk].
    unfold readable. now rewrite Hk. }
  rewrite RB. exists (arraySort dailyCompare entries).
  split; [reflexivity |]. split; [| split].
  - rewrite arraySort_perm. exact P.
  - intros a b Hab.
    destruct (before_In _ _ _ Hab) as [Ia Ib].
    apply arraySort_In in Ia, Ib.
    destruct (R a Ia) as [ka Ha], (R b Ib) as [kb Hb].
    exists ka, kb. split; [exact Ha |]. split; [exact Hb |].
    apply (dailyCompare_le a b ka kb Ha Hb).
    apply (arraySort_before_on dailyCompare
             (fun e => exists k, monthDay (d_date e) = Some k) entries); auto.
    + intros x y [kx Hx] [ky Hy] Hgt. unfold dailyCompare in *.
      rewrite Hx, Hy in *. destruct kx, ky.
      destruct (Z.eqb_spec (z - z1) 0), (Z.eqb_spec (z1 - z) 0); lia.
    + intros x y z [kx Hx] [ky Hy] [kz Hz] H1 H2.
      apply (dailyCompare_le _ _ _ _ Hx Hy) in H1.
      apply (dailyCompare_le _ _ _ _ Hy Hz) in H2.
      apply (dailyCompare_le _ _ _ _ Hx Hz).
      unfold monthDayLe in *. lia.
  - rewrite (total_perm _ _ _ (arraySort_perm dailyCompare entries)),
      (total_perm _ _ _ P), total_map. simpl.
    apply total_countOn; [apply firstSeen_NoDup |].
    intros tx Htx. apply firstSeen_In. now apply in_map.
Qed.

(** ** After logout *)

(** X19. After a logout the next render shows nothing: every chart series
    and the table are empty, the totals and the statistics are 0, and the
    array stays empty; the user profile and the sort state are kept, the
    stored credential is gone. *)
Theorem logout_empties_every_view :
  forall st : AppState,
    render (logout st)
    = mkRendered [] (mkTypeTotals 0 0) (mkStats 0 0 (Some 0) (Some 0) (Some 0))
                 [] [] [] []
    /\ monthlyChartData (currentUser (logout st)) (transactions (logout st)) = []
    /\ dailyTransactionData (transactions (logout st)) = Some []
    /\ currentUser (logout st) = currentUser st
    /\ (sortField (logout st), sortOrder (logout st)) = (sortField st, sortOrder st)
    /\ localStorage (logout st) = None
    /\ isAuthenticated (logout st) = false.
Proof. intros st. repeat split. Qed.

End Dashboard.

(** ** The concrete runtime *)

Lemma codeUnitCompare_antisymmetric : antisymmetric codeUnitCompare.
Proof.
  intros a b. unfold codeUnitCompare. rewrite (String.compare_antisym a b).
  destruct (String.compare b a); simpl; split; intros H;
    try reflexivity; try discriminate.
Qed.

(** ** The properties on the sample data *)


Lemma salary_rent_adjacent : sameDatesAdjacent isoTime isoDate [salary; rent].
Proof.
  intros a b c Ha Hb Hc H1 H2 H3.
  destruct Ha as [<- | [<- | []]], Hb as [<- | [<- | []]], Hc as [<- | [<- | []]];
    try reflexivity;
    try (vm_compute in H3; discriminate);
    try (vm_compute in H1; exfalso; apply H1; reflexivity);
    try (vm_compute in H2; exfalso; apply H2; reflexivity).
Qed.


(** C2 fails on the code. [balanceData] turns the newest-first array of the
    state into an oldest-first one, [runningBalanceData] turns an oldest-first
    array into a newest-first one, and a render of the state holding
    [salary; rent] leaves the state holding [rent; salary]. *)
Theorem balance_curves_reorder_state_array :
  snd (balanceData isoTime isoDate (Some me) [rent; salary]) = [salary; rent]
  /\ snd (runningBalanceData isoTime isoDate (Some me) [accountWith 60] [salary; rent])
     = [rent; salary]
  /\ transactions (afterRender isoTime isoDate codeUnitCompare
                               (loaded [salary; rent] [accountWith 60] (Some me)))
     = [rent; salary].
Proof. repeat split. Qed.

(** C3, as stated, fails: a [number] is a double, and the two sides of the
    claim add the same amounts in different orders. With 0.1 incoming, 0.1
    outgoing and 0.4 incoming the income total 0.5 and the expense total 0.1
    add up to 0.6, while the total volume, (0.1 + 0.1) + 0.4, is the next
    double above 0.6, printed 0.6000000000000001. Integer amounts do not
    help beyond 2^53: with 1 incoming, 2^53 outgoing and 1 incoming the two
    totals add up to 2^53 + 2 and the total volume is 2^53. *)
Lemma income_plus_expense_misses_volume_on_doubles :
  (Doubles.Income (Doubles.transactionTypes (Some me) Doubles.tenths)
   + Doubles.Expense (Doubles.transactionTypes (Some me) Doubles.tenths)
   = 6 / 10)%float
  /\ (Doubles.totalVolume Doubles.tenths = next_up (6 / 10))%float
  /\ (Doubles.Income (Doubles.transactionTypes (Some me) Doubles.tenths)
       + Doubles.Expense (Doubles.transactionTypes (Some me) Doubles.tenths)
       =? Doubles.totalVolume Doubles.tenths)%float = false
  /\ (Doubles.Income (Doubles.transactionTypes (Some me) Doubles.aroundMaxExact)
       + Doubles.Expense (Doubles.transactionTypes (Some me) Doubles.aroundMaxExact)
       = 9007199254740994)%float
  /\ (Doubles.totalVolume Doubles.aroundMaxExact = 9007199254740992)%float
  /\ (Doubles.Income (Doubles.transactionTypes (Some me) Doubles.aroundMaxExact)
       + Doubles.Expense (Doubles.transactionTypes (Some me) Doubles.aroundMaxExact)
       =? Doubles.totalVolume Doubles.aroundMaxExact)%float = false.
Proof. repeat split. Qed.

(** On [salary] and [rent], which lie in the exact range, the two sides
    agree, and the reduces on doubles give the same numbers. *)
Lemma income_expense_partition_volume_witness :
  exactVolume [salary; rent]
  /\ Income (transactionTypes (Some me) [salary; rent])
     + Expense (transactionTypes (Some me) [salary; rent])
     = totalVolume (transactionStats [salary; rent])
  /\ totalVolume (transactionStats [salary; rent]) = 140
  /\ (Doubles.Income (Doubles.transactionTypes (Some me) Doubles.salaryAndRent)
      + Doubles.Expense (Doubles.transactionTypes (Some me) Doubles.salaryAndRent)
      = 140)%float
  /\ (Doubles.totalVolume Doubles.salaryAndRent = 140)%float.
Proof.
  assert (H : exactVolume [salary; rent]) by (vm_compute; discriminate).
  split; [exact H |].
  destruct (income_expense_partition_volume (Some me) [salary; rent] H)
    as [H1 [H2 _]].
  exact (conj H1 (conj H2 (conj eq_refl eq_refl))).
Defined.

(** C4, as stated, fails. Bob and 7 have equal totals and Bob is met first,
    yet 7 is listed first; and of the two names Bob and constructor only Bob
    gets an entry. *)
Lemma top_five_fails_on_index_and_inherited_names :
  map (partnerNameOf (Some me)) toBobAndSeven = ["Bob"; "7"]%string
  /\ topPartnersData (Some me) toBobAndSeven
     = [mkPartnerTotal "7" 0 10 10; mkPartnerTotal "Bob" 0 10 10]
  /\ firstIndexOf "Bob" (map (partnerNameOf (Some me)) toBobAndSeven) = 0%nat
  /\ firstIndexOf "7" (map (partnerNameOf (Some me)) toBobAndSeven) = 1%nat
  /\ map (partnerNameOf (Some me)) toBobAndConstructor = ["Bob"; "constructor"]%string
  /\ topPartnersData (Some me) toBobAndConstructor = [mkPartnerTotal "Bob" 0 10 10]
  /\ List.length (topPartnersData (Some me) toBobAndConstructor)
     <> Nat.min 5 (List.length
                     (nodup string_dec
                            (map (partnerNameOf (Some me)) toBobAndConstructor))).
Proof. repeat split. vm_compute. discriminate. Qed.

Lemma fourPartners_own :
  Forall (fun tx => inheritedKey (partnerNameOf (Some me) tx) = false) fourPartners.
Proof. repeat constructor. Qed.

Lemma topPartnersData_top_five_witness :
  Forall (fun tx => inheritedKey (partnerNameOf (Some me) tx) = false) fourPartners
  /\ List.length (topPartnersData (Some me) fourPartners)
     = Nat.min 5 (List.length
                    (nodup string_dec (map (partnerNameOf (Some me)) fourPartners)))
  /\ (forall a b, before a b (topPartnersData (Some me) fourPartners) ->
                  pt_total b <= pt_total a).
Proof.
  split; [exact fourPartners_own |].
  destruct (topPartnersData_top_five (Some me) fourPartners)
    as [_ [Hlen [_ [Hsorted _]]]].
  split; [exact (Hlen fourPartners_own) | exact Hsorted].
Defined.

(** C6 fails on the code. The four incoming transactions of [overAYear] add
    up to 1111, and the latest of them falls on 2. 1.; the bucket of 2. 1.
    holds 1110: the amount 1 that went into the earlier bucket 1. 1. is
    missing from the running total. *)
Theorem balance_curve_loses_amount_across_years :
  balanceData isoTime isoDate (Some me) overAYear
  = ([mkBalancePoint "1. 1." 111 100; mkBalancePoint "2. 1." 1110 10], overAYear)
  /\ netAmount (Some me) overAYear = 1111.
Proof. split; reflexivity. Qed.

Lemma fetchData_credential_witness :
  isUnauthorized unauthorized = true
  /\ error (fetchData "key" unauthorized (loaded [] [] None)) = Some unauthorizedMessage
  /\ localStorage (fetchData "key" unauthorized (loaded [] [] None)) = None
  /\ localStorage (fetchData "new-key" serverError (loaded [] [] None)) = Some "key"%string
  /\ localStorage (fetchData "new-key" (Resolved [salary] [accountWith 100] (Some me))
                             (loaded [] [] None))
     = Some "new-key"%string.
Proof.
  split; [reflexivity |].
  destruct (fetchData_credential "key" unauthorized (loaded [] [] None)) as [H401 _].
  destruct (fetchData_credential "new-key" serverError (loaded [] [] None))
    as [_ [Hother _]].
  destruct (fetchData_credential "new-key" (Resolved [salary] [accountWith 100] (Some me))
                                 (loaded [] [] None)) as [_ [_ Hok]].
  destruct (H401 eq_refl) as [Hmsg Hgone].
  exact (conj Hmsg (conj Hgone (conj (Hother eq_refl eq_refl) (Hok eq_refl)))).
Defined.

Lemma sortedTransactions_idempotent_and_toggle_witness :
  antisymmetric codeUnitCompare
  /\ sortedTransactions isoTime codeUnitCompare from_field desc
                        (sortedTransactions isoTime codeUnitCompare from_field desc
                                            fourPartners)
     = sortedTransactions isoTime codeUnitCompare from_field desc fourPartners.
Proof.
  split; [exact codeUnitCompare_antisymmetric |].
  apply (sortedTransactions_idempotent_and_toggle
           isoTime isoDate codeUnitCompare codeUnitCompare_antisymmetric
           (loaded fourPartners [] (Some me)) from_field desc fourPartners).
Defined.

Lemma handleSort_flips_or_selects_witness :
  amount_field <> date_field
  /\ handleSort amount_field (date_field, desc) = (amount_field, asc).
Proof.
  assert (H : amount_field <> date_field) by discriminate.
  split; [exact H |].
  apply (handleSort_flips_or_selects amount_field date_field desc). exact H.
Defined.

(** C10, as stated, fails on its last part. Without a profile, 10 is sent
    to Bob and 5 to a receiver named constructor: the accumulator holds an
    entry for Bob only, and the 5 appear under no name, neither in the
    accumulator nor on the list. *)
Lemma no_profile_total_lost_on_inherited_name :
  map (partnerNameOf None) toBobAndConstructor = ["Bob"; "constructor"]%string
  /\ topPartners None toBobAndConstructor = [("Bob"%string, mkPartner "Bob" 0 10)]
  /\ getOwn "constructor" (topPartners None toBobAndConstructor) = None
  /\ topPartnersData None toBobAndConstructor = [mkPartnerTotal "Bob" 0 10 10]
  /\ Expense (transactionTypes None toBobAndConstructor) = 15.
Proof. repeat split. Qed.

Lemma no_profile_all_outgoing_witness :
  transactionTypes None [salary; rent] = mkTypeTotals 0 140
  /\ getOwn "Bob" (topPartners None [salary; rent]) = Some (mkPartner "Bob" 0 40)
  /\ List.length (topPartnersData None [salary; rent]) = 2%nat.
Proof.
  destruct (no_profile_all_outgoing isoDate [salary; rent])
    as [H1 [_ [_ [_ [H5 [H6 _]]]]]].
  split; [exact H1 |].
  split; [exact (H5 rent (or_intror (or_introl eq_refl)) eq_refl) | exact H6].
Defined.

(** ** Session behaviour: loads, mount, logout, header icons *)

Lemma fetchData_failed_message (authToken : string) (o : FetchOutcome) (st : AppState) :
  isFailure o = true -> exists msg, error (fetchData authToken o st) = Some msg.
Proof.
  destruct o as [txs accts u | e |]; simpl; intros H; try discriminate; eauto.
  destruct (onAxiosError e (localStorage st)) as [msg stored]. simpl. eauto.
Qed.

(** X1. Loading twice with the same credential and the same outcome leaves
    the state of loading once. *)
Theorem fetchData_idempotent :
  forall (authToken : string) (o : FetchOutcome) (st : AppState),
    fetchData authToken o (fetchData authToken o st) = fetchData authToken o st.
Proof.
  intros authToken o st. destruct o as [txs accts u | e |]; simpl; try reflexivity.
  unfold onAxiosError.
  destruct (statusIs e 401); simpl; [reflexivity |].
  destruct (statusIs e 404); simpl; [reflexivity |].
  destruct (codeIs e "ECONNREFUSED"); reflexivity.
Qed.

(** X2. The message shown after a load tells the failure class: it is the
    unauthorized message exactly for status 401, the not-found message
    exactly for status 404 without 401, the connection message exactly for
    code ECONNREFUSED without these statuses, the unexpected-error message
    exactly for an error that is not an Axios error, and there is no message
    exactly when the load succeeded. *)
Theorem error_message_tells_class :
  forall (authToken : string) (o : FetchOutcome) (st : AppState),
    (error (fetchData authToken o st) = Some unauthorizedMessage
     <-> isUnauthorized o = true)
    /\ (error (fetchData authToken o st) = Some notFoundMessage
        <-> exists e, o = RejectedAxios e
                      /\ statusIs e 401 = false /\ statusIs e 404 = true)
    /\ (error (fetchData authToken o st) = Some refusedMessage
        <-> exists e, o = RejectedAxios e
                      /\ statusIs e 401 = false /\ statusIs e 404 = false
                      /\ codeIs e "ECONNREFUSED" = true)
    /\ (error (fetchData authToken o st) = Some unexpectedMessage
        <-> o = RejectedOther)
    /\ (error (fetchData authToken o st) = None <-> isFailure o = false).
Proof.
  intros authToken o st.
  unfold unauthorizedMessage, notFoundMessage, refusedMessage, unexpectedMessage.
  destruct o as [txs accts u | e |]; simpl;
    [| unfold onAxiosError;
       destruct (statusIs e 401) eqn:S1, (statusIs e 404) eqn:S2,
                (codeIs e "ECONNREFUSED") eqn:S3; simpl |];
    repeat match goal with |- _ /\ _ => split end;
    (split; intros H;
     [ try discriminate H; try reflexivity; try (exists e; auto)
     | try reflexivity; try discriminate H;
       try (destruct H as [e' [H1 H2]]; try discriminate H1;
            injection H1 as <-; decompose [and] H2; congruence) ]).
Qed.

Lemma fetchData_consistent (authToken : string) (o : FetchOutcome) (st : AppState) :
  sessionConsistent (fetchData authToken o st).
Proof.
  destruct o as [txs accts u | e |]; simpl.
  - split; [reflexivity |]. split; [reflexivity |].
    intros _. split; [reflexivity | discriminate].
  - destruct (onAxiosError e (localStorage st)).
    split; [reflexivity |]. split; [reflexivity |]. simpl. discriminate.
  - split; [reflexivity |]. split; [reflexivity |]. simpl. discriminate.
Qed.

Lemma loadPage_consistent (o : FetchOutcome) (stored : option string) :
  sessionConsistent (loadPage o stored).
Proof.
  unfold loadPage, onMount. simpl. destruct stored as [t |].
  - destruct (truthy t); [apply fetchData_consistent |].
    split; [reflexivity |]. split; [reflexivity |]. simpl. discriminate.
  - split; [reflexivity |]. split; [reflexivity |]. simpl. discriminate.
Qed.

Lemma handleEvent_consistent (st : AppState) (e : Event) :
  sessionConsistent st -> sessionConsistent (handleEvent st e).
Proof.
  intros [Hl [Hi Ha]]. destruct e as [o | s | o | | field]; simpl.
  - apply loadPage_consistent.
  - split; [exact Hl |]. split; [exact Hi | exact Ha].
  - apply fetchData_consistent.
  - split; [exact Hl |]. split; [exact Hi |]. simpl. discriminate.
  - split; [exact Hl |]. split; [exact Hi | exact Ha].
Qed.

(** X3. Whatever storage held when the page was loaded, however the load
    started on mount ended, and whatever happened since (the page loaded
    again, the form edited, Continue, Logout, header clicks): no load is
    left pending, the initial loading screen is gone, and whenever the
    dashboard is shown (authenticated) there is no error message and a
    credential is stored. *)
Theorem session_stays_consistent :
  forall (stored : option string) (o : FetchOutcome) (events : list Event),
    loading (session stored o events) = false
    /\ initialLoading (session stored o events) = false
    /\ (isAuthenticated (session stored o events) = true ->
        error (session stored o events) = None
        /\ localStorage (session stored o events) <> None).
Proof.
  intros stored o events.
  change (sessionConsistent (session stored o events)).
  unfold session, runEvents.
  pose proof (loadPage_consistent o stored) as H0.
  revert H0. generalize (loadPage o stored) as st.
  induction events as [| e events IH]; intros st H; simpl; [exact H |].
  apply IH, handleEvent_consistent, H.
Qed.

(** X4. Logout ends the stored session: when the page is loaded again after
    it, no load is started, whatever the server would answer, and the new
    instance shows the login form with no data, no error and an empty field.
    A successful load with a non-empty credential starts a stored session:
    when the page is loaded again, the new instance puts that credential
    into the form and loads with it. When that load succeeds the instance is
    authenticated on the new data, sorted by date descending, with the
    credential still stored; when it fails other than as unauthorized, the
    instance shows the login form with a message and without data, and the
    credential stays stored. *)
Theorem stored_session_round_trip :
  forall (st : AppState) (o : FetchOutcome) (c : ascii) (t : string)
         (txs txs' : list Transaction) (accts accts' : list BankAccount)
         (u u' : option User),
    loadPage o (localStorage (logout st)) = loginForm
    /\ loadPage o (localStorage (fetchData (String c t) (Resolved txs accts u) st))
       = fetchData (String c t) o
                   (setTokenField (String c t) (initialState (Some (String c t))))
    /\ loadPage (Resolved txs' accts' u')
                (localStorage (fetchData (String c t) (Resolved txs accts u) st))
       = mkAppState txs' accts' false false None (String c t) true
                    date_field desc u' (Some (String c t))
    /\ (isFailure o = true -> isUnauthorized o = false ->
        exists msg,
          loadPage o (localStorage (fetchData (String c t) (Resolved txs accts u) st))
          = mkAppState [] [] false false (Some msg) (String c t) false
                       date_field desc None (Some (String c t))).
Proof.
  intros st o c t txs txs' accts accts' u u'.
  split; [reflexivity |]. split; [reflexivity |]. split; [reflexivity |].
  intros Hf Hu. unfold loadPage, onMount. simpl.
  destruct o as [? ? ? | e |]; simpl in *; try discriminate.
  - unfold onAxiosError. rewrite Hu.
    destruct (statusIs e 404); [| destruct (codeIs e "ECONNREFUSED")];
      simpl; eexists; reflexivity.
  - eexists; reflexivity.
Qed.

(** X5. A load that failed as unauthorized ends the stored session: when
    the page is loaded again, no load is started, whatever the server would
    answer, and the new instance shows the login form with no data, no error
    message and an empty field. *)
Theorem unauthorized_ends_stored_session :
  forall (authToken : string) (o o' : FetchOutcome) (st : AppState),
    isUnauthorized o = true ->
    loadPage o' (localStorage (fetchData authToken o st)) = loginForm.
Proof.
  intros authToken o o' st H. destruct o as [? ? ? | e |]; try discriminate.
  simpl in H. simpl. unfold onAxiosError. rewrite H. reflexivity.
Qed.

(** X6. After a click on a header, that header shows an arrow and the three
    other headers show the neutral icon; the arrow points up when the field
    was not the active one or was sorted descending, and down when it was the
    active one sorted ascending. *)
Theorem clicked_header_shows_the_arrow :
  forall (field f g : SortField) (o : SortOrder),
    getSortIcon (fst (handleSort field (f, o))) (snd (handleSort field (f, o))) field
    = (if SortField_eqb f field
       then match o with asc => ChevronDown | desc => ChevronUp end
       else ChevronUp)
    /\ (g <> field ->
        getSortIcon (fst (handleSort field (f, o))) (snd (handleSort field (f, o))) g
        = ChevronsUpDown).
Proof.
  intros field f g o. split.
  - destruct field, f, o; reflexivity.
  - intros H. destruct field, f, o, g; try reflexivity; congruence.
Qed.

(** ** The further properties on the sample data *)

Lemma session_stays_consistent_witness :
  isAuthenticated
    (session (Some "old-key"%string) unauthorized
             [Typed "key";
              Submitted (Resolved [salary; rent] [accountWith 60] None)]) = true
  /\ error
       (session (Some "old-key"%string) unauthorized
                [Typed "key";
                 Submitted (Resolved [salary; rent] [accountWith 60] None)]) = None
  /\ localStorage
       (session (Some "old-key"%string) unauthorized
                [Typed "key";
                 Submitted (Resolved [salary; rent] [accountWith 60] None)]) <> None.
Proof.
  split; [reflexivity |].
  destruct (session_stays_consistent
              (Some "old-key"%string) unauthorized
              [Typed "key";
               Submitted (Resolved [salary; rent] [accountWith 60] None)])
    as [_ [_ H]].
  exact (H eq_refl).
Defined.

Lemma unauthorized_ends_stored_session_witness :
  isUnauthorized unauthorized = true
  /\ loadPage (Resolved [salary] [accountWith 100] (Some me))
              (localStorage
                 (fetchData "key" unauthorized (loaded [salary] [accountWith 100] (Some me))))
     = loginForm.
Proof.
  split; [reflexivity |].
  apply (unauthorized_ends_stored_session
           "key" unauthorized (Resolved [salary] [accountWith 100] (Some me))
           (loaded [salary] [accountWith 100] (Some me))).
  reflexivity.
Defined.

Lemma stored_session_round_trip_witness :
  isFailure serverError = true
  /\ isUnauthorized serverError = false
  /\ loadPage unauthorized (localStorage (logout (loaded [salary] [] (Some me))))
     = loginForm
  /\ exists msg,
       loadPage serverError
                (localStorage
                   (fetchData "key" (Resolved [salary] [accountWith 100] (Some me))
                              (initialState None)))
       = mkAppState [] [] false false (Some msg) "key" false
                    date_field desc None (Some "key"%string).
Proof.
  destruct (stored_session_round_trip
              (loaded [salary] [] (Some me)) unauthorized "k" "ey"
              [] [] [] [] None None) as [H1 _].
  destruct (stored_session_round_trip
              (initialState None) serverError "k" "ey"
              [salary] [] [accountWith 100] [] (Some me) None) as [_ [_ [_ H4]]].
  exact (conj eq_refl (conj eq_refl (conj H1 (H4 eq_refl eq_refl)))).
Defined.

Lemma clicked_header_shows_the_arrow_witness :
  from_field <> amount_field
  /\ getSortIcon (fst (handleSort amount_field (date_field, desc)))
                 (snd (handleSort amount_field (date_field, desc))) from_field
     = ChevronsUpDown.
Proof.
  assert (H : from_field <> amount_field) by discriminate.
  split; [exact H |].
  apply (clicked_header_shows_the_arrow amount_field date_field from_field desc).
  exact H.
Defined.

Lemma sortedTransactions_sorted_stable_witness :
  antisymmetric codeUnitCompare
  /\ Permutation (sortedTransactions isoTime codeUnitCompare to_field desc fourPartners)
                 fourPartners.
Proof.
  split; [exact codeUnitCompare_antisymmetric |].
  apply (sortedTransactions_sorted_stable
           isoTime codeUnitCompare codeUnitCompare_antisymmetric
           to_field desc fourPartners).
Defined.

Lemma transactionStats_bounds_witness :
  fourPartners <> []
  /\ exactAverage fourPartners
  /\ exists lo avg hi,
       smallestTransaction (transactionStats fourPartners) = Some lo
       /\ averageAmount (transactionStats fourPartners) = Some avg
       /\ largestTransaction (transactionStats fourPartners) = Some hi
       /\ lo <= avg <= hi.
Proof.
  assert (H : fourPartners <> []) by discriminate.
  assert (X : exactAverage fourPartners) by (vm_compute; reflexivity).
  split; [exact H |]. split; [exact X |].
  destruct (transactionStats_bounds fourPartners H)
    as [lo [hi [H1 [H2 [_ [_ [_ H3]]]]]]].
  destruct (H3 X) as [avg [H4 [H5 _]]].
  exists lo, avg, hi. exact (conj H1 (conj H4 (conj H2 H5))).
Defined.



Lemma running_curve_starts_where_forward_starts_witness :
  sameDatesAdjacent isoTime isoDate
                    (transactions (loaded [salary; rent] [accountWith 60] (Some me)))
  /\ exactBalances [accountWith 60] [salary; rent]
  /\ exists p rest,
       r_runningBalanceData
         (render isoTime isoDate codeUnitCompare
                 (loaded [salary; rent] [accountWith 60] (Some me)))
       = p :: rest
       /\ rp_balance p
          = seedBalance [accountWith 60]
            - lastBalanceOf
                (r_balanceData
                   (render isoTime isoDate codeUnitCompare
                           (loaded [salary; rent] [accountWith 60] (Some me)))).
Proof.
  assert (X : exactBalances [accountWith 60] [salary; rent])
    by (vm_compute; discriminate).
  split; [exact salary_rent_adjacent |]. split; [exact X |].
  destruct (running_curve_starts_where_forward_starts
              isoTime isoDate codeUnitCompare
              (loaded [salary; rent] [accountWith 60] (Some me))
              salary_rent_adjacent)
    as [p [rest [H1 [H2 _]]]]; [discriminate | exact X |].
  exists p, rest. exact (conj H1 H2).
Defined.

Lemma fourPartners_exact : exactVolume fourPartners.
Proof. vm_compute. discriminate. Qed.

Lemma runningBalanceData_subtotals_witness :
  exactVolume fourPartners
  /\ total rp_incoming
           (fst (runningBalanceData isoTime isoDate (Some me) [] fourPartners))
     = Income (transactionTypes (Some me) fourPartners)
  /\ total rp_outgoing
           (fst (runningBalanceData isoTime isoDate (Some me) [] fourPartners))
     = - Expense (transactionTypes (Some me) fourPartners).
Proof.
  split; [exact fourPartners_exact |].
  destruct (runningBalanceData_subtotals isoTime isoDate (Some me) [] fourPartners)
    as [_ [_ [_ H]]].
  destruct (H fourPartners_exact) as [_ H'].
  exact H'.
Defined.

Lemma topPartnersData_on_every_list_witness :
  exactVolume fourPartners
  /\ total pt_total (topPartnersData (Some me) fourPartners)
     <= totalVolume (transactionStats fourPartners).
Proof.
  split; [exact fourPartners_exact |].
  destruct (topPartnersData_on_every_list (Some me) fourPartners)
    as [_ [_ [_ [_ H]]]].
  exact (proj1 (H fourPartners_exact)).
Defined.

Lemma fourPartners_months :
  Forall (fun tx => inheritedKey (monthOf isoMonthName tx) = false) fourPartners.
Proof. repeat constructor. Qed.

Lemma monthlyChartData_totals_witness :
  Forall (fun tx => inheritedKey (monthOf isoMonthName tx) = false) fourPartners
  /\ exactVolume fourPartners
  /\ total m_incoming (monthlyChartData isoMonthName (Some me) fourPartners)
     = Income (transactionTypes (Some me) fourPartners)
  /\ total m_outgoing (monthlyChartData isoMonthName (Some me) fourPartners)
     = - Expense (transactionTypes (Some me) fourPartners).
Proof.
  assert (X : exactVolume fourPartners) by (vm_compute; discriminate).
  split; [exact fourPartners_months |]. split; [exact X |].
  destruct (monthlyChartData_totals isoMonthName (Some me) fourPartners
                                    fourPartners_months)
    as [_ [_ [_ H]]].
  destruct (H X) as [H1 [H2 _]].
  exact (conj H1 H2).
Defined.

Lemma fourPartners_days :
  Forall (fun tx => monthDay (dayOf isoMonthDay tx) <> None) fourPartners.
Proof. repeat (constructor; [vm_compute; discriminate |]). constructor. Qed.

Lemma fourPartners_days_own :
  Forall (fun tx => inheritedKey (dayOf isoMonthDay tx) = false) fourPartners.
Proof. repeat constructor. Qed.

Lemma dailyTransactionCount_counts_witness :
  Forall (fun tx => inheritedKey (dayOf isoMonthDay tx) = false) fourPartners
  /\ total (fun kv => countValue (snd kv)) (dailyTransactionCount isoMonthDay fourPartners)
     = Z.of_nat (List.length fourPartners).
Proof.
  split; [exact fourPartners_days_own |].
  destruct (dailyTransactionCount_counts isoMonthDay fourPartners fourPartners_days_own)
    as [_ [_ [_ [_ H]]]].
  exact H.
Defined.

Lemma dailyTransactionData_sorted_counts_witness :
  Forall (fun tx => monthDay (dayOf isoMonthDay tx) <> None) fourPartners
  /\ exists data,
       dailyTransactionData isoMonthDay fourPartners = Some data
       /\ total (fun e => countValue (d_count e)) data
          = Z.of_nat (List.length fourPartners).
Proof.
  split; [exact fourPartners_days |].
  destruct (dailyTransactionData_sorted_counts isoMonthDay fourPartners fourPartners_days)
    as [data [H1 [_ [_ H2]]]].
  exists data. exact (conj H1 H2).
Defined.
